(** * The tweet cache of the news dashboard proxy (server.js)

    A shallow embedding of the file-backed tweet store
    ([loadStoredTweets], [saveStoredTweets], [getRandomStoredTweets]), of the
    start-up seeding ([initializeSampleTweets]) and of the
    [/api/twitter/search] route, followed by the properties of the
    cache-fallback design. *)

From Stdlib Require Import List String Ascii ZArith QArith Bool Lia.
From Stdlib Require Import Permutation Sorted DecimalString.
Import ListNotations.

Open Scope string_scope.
Open Scope list_scope.
Open Scope Z_scope.

(* ================================================================= *)
(** ** Data *)

(** [public_metrics] of a tweet. *)
Record PublicMetrics := {
  retweet_count : Z;
  reply_count : Z;
  like_count : Z;
  quote_count : Z
}.

(** A user object of [includes.users], with the fields the route asks the
    upstream for, also the [author] embedded in a processed tweet.  The
    default author of the route has no [id] and no [verified]; a
    [profile_image_url] of [None] is [null]. *)
Record User := {
  user_id : option string;
  username : string;
  name : string;
  profile_image_url : option string;
  verified : option bool
}.

(** The [author] of a tweet as JSON holds it: a user object, or another
    value ([{}], a string, a boolean). *)
Inductive Author :=
| AuthorUser (u : User)
| AuthorEmpty
| AuthorString (s : string)
| AuthorBool (b : bool).

(** A tweet object, as JSON holds it.  [created_at] stands for the time
    value, in milliseconds, of [new Date(tweet.created_at)]; [isMockData] is
    [false] when the property is absent; [author] is [None] when the
    property is absent or [null]. *)
Record Tweet := {
  id : string;
  isMockData : bool;
  text : string;
  created_at : Z;
  author_id : string;
  author : option Author;
  public_metrics : PublicMetrics
}.

(** The document kept in the backing file:
    [{ tweets: [...], lastUpdated: <ISO time> }].  [tweets] is [None] when
    the property is missing. *)
Record Database := {
  tweets : option (list Tweet);
  lastUpdated : Z
}.

(** The text of a file, by what [JSON.parse] makes of it: a syntax error,
    or a value, [None] being JSON [null]. *)
Inductive JsonText :=
| Malformed
| Encodes (doc : option Database).

(** A path of the file system: [fs.readFile] rejects with an error carrying
    [code] (['ENOENT'] for a path that does not exist), or yields the text. *)
Inductive FileState :=
| Unreadable (code : string)
| Contents (t : JsonText).

(** How [fs.writeFile] rejects: before the file is opened (a permission,
    say), which leaves the file alone, or after it was opened with flag
    ['w'], which has emptied it (a full disk, say). *)
Inductive WriteFault :=
| RejectedAtOpen (code : string)
| RejectedAfterOpen (code : string).

Definition fault_code (f : WriteFault) : string :=
  match f with
  | RejectedAtOpen code => code
  | RejectedAfterOpen code => code
  end.

(** Calls made to the [fs] module, in order. *)
Inductive FsCall :=
| ReadFile (path : string)
| WriteFile (path : string)
| Rename (from to : string).

Inductive Exn :=
| FsError (code : string)
| SyntaxError
| TypeError
| FetchError.

Inductive LogEntry :=
| ConsoleLog (msg : string)
| ConsoleError (msg : string) (cause : option Exn).

Record Includes := {
  users : option (list User)
}.

(** A JSON object received from upstream, by the properties the server
    reads. *)
Record JsonObject := {
  access_token : option string;
  data : option (list Tweet);
  includes : option Includes
}.

(** What [response.json()] gives: a rejection, [null], an object, or another
    JSON value (on which every property read is [undefined]). *)
Inductive Body :=
| NotJson
| JsonNull
| JsonObj (o : JsonObject)
| JsonOther (raw : string).

Record HttpResponse := {
  ok : bool;
  status : Z;
  body_text : option string;
  json : Body
}.

(** The process and its environment: the file system ([files], and
    [write_fault], how it rejects a write, if it does), the calls made to [fs] and the lines printed so far, the global
    [twitterBearerToken] and [process.env.TWITTER_BEARER_TOKEN], the answer
    of the network to a [fetch] of each URL ([None]: the fetch rejects), the
    values [Math.random()] yields call after call, and the clock. *)
Record World := mkWorld {
  files : string -> FileState;
  write_fault : option WriteFault;
  fs_calls : list FsCall;
  console : list LogEntry;
  twitterBearerToken : option string;
  env_TWITTER_BEARER_TOKEN : option string;
  network : string -> option HttpResponse;
  random : nat -> Q;
  random_calls : nat;
  now : Z
}.

Definition with_files (f : string -> FileState) (w : World) : World :=
  mkWorld f (write_fault w) (fs_calls w) (console w) (twitterBearerToken w)
    (env_TWITTER_BEARER_TOKEN w) (network w) (random w) (random_calls w) (now w).

Definition with_fs_calls (c : list FsCall) (w : World) : World :=
  mkWorld (files w) (write_fault w) c (console w) (twitterBearerToken w)
    (env_TWITTER_BEARER_TOKEN w) (network w) (random w) (random_calls w) (now w).

Definition with_console (c : list LogEntry) (w : World) : World :=
  mkWorld (files w) (write_fault w) (fs_calls w) c (twitterBearerToken w)
    (env_TWITTER_BEARER_TOKEN w) (network w) (random w) (random_calls w) (now w).

Definition with_token (t : option string) (w : World) : World :=
  mkWorld (files w) (write_fault w) (fs_calls w) (console w) t
    (env_TWITTER_BEARER_TOKEN w) (network w) (random w) (random_calls w) (now w).

Definition with_random_calls (n : nat) (w : World) : World :=
  mkWorld (files w) (write_fault w) (fs_calls w) (console w) (twitterBearerToken w)
    (env_TWITTER_BEARER_TOKEN w) (network w) (random w) n (now w).

(* ================================================================= *)
(** ** Computations: state and exceptions *)

Inductive Outcome (A : Type) :=
| Return (a : A)
| Throw (e : Exn).
Arguments Return {A} a.
Arguments Throw {A} e.

Definition M (A : Type) : Type := World -> Outcome A * World.

Definition ret {A} (a : A) : M A := fun w => (Return a, w).

Definition throw {A} (e : Exn) : M A := fun w => (Throw e, w).

Definition bind {A B} (c : M A) (k : A -> M B) : M B :=
  fun w =>
    match c w with
    | (Return a, w') => k a w'
    | (Throw e, w') => (Throw e, w')
    end.

(** [try { c } catch (error) { h error }] *)
Definition try_catch {A} (c : M A) (h : Exn -> M A) : M A :=
  fun w =>
    match c w with
    | (Return a, w') => (Return a, w')
    | (Throw e, w') => h e w'
    end.

Declare Scope js_scope.
Delimit Scope js_scope with js.
Notation "x <- c ;; k" := (bind c (fun x => k))
  (at level 61, c at next level, right associativity) : js_scope.
Notation "c ;; k" := (bind c (fun _ => k))
  (at level 61, right associativity) : js_scope.
Open Scope js_scope.

(** *** Primitives of the runtime *)

Definition console_log (msg : string) : M unit :=
  fun w => (Return tt, with_console (console w ++ [ConsoleLog msg]) w).

Definition console_error (msg : string) (cause : option Exn) : M unit :=
  fun w => (Return tt, with_console (console w ++ [ConsoleError msg cause]) w).

Definition Date_now : M Z := fun w => (Return (now w), w).

Definition Math_random : M Q :=
  fun w => (Return (random w (random_calls w)),
            with_random_calls (S (random_calls w)) w).

Definition fs_readFile (path : string) : M JsonText :=
  fun w =>
    let w' := with_fs_calls (fs_calls w ++ [ReadFile path]) w in
    match files w path with
    | Unreadable code => (Throw (FsError code), w')
    | Contents t => (Return t, w')
    end.

(** [fs.writeFile(path, text)]: the whole text replaces the file at [path],
    unless the write is rejected.  A write rejected after the open leaves
    the file empty or with a proper prefix of the text, on which
    [JSON.parse] throws. *)
Definition fs_writeFile (path : string) (t : JsonText) : M unit :=
  fun w =>
    let w' := with_fs_calls (fs_calls w ++ [WriteFile path]) w in
    match write_fault w with
    | Some (RejectedAtOpen code) => (Throw (FsError code), w')
    | Some (RejectedAfterOpen code) =>
        (Throw (FsError code),
         with_files (fun p => if String.eqb p path then Contents Malformed else files w p) w')
    | None =>
        (Return tt,
         with_files (fun p => if String.eqb p path then Contents t else files w p) w')
    end.

Definition JSON_parse (t : JsonText) : M (option Database) :=
  match t with
  | Malformed => throw SyntaxError
  | Encodes v => ret v
  end.

Definition JSON_stringify (doc : Database) : JsonText := Encodes (Some doc).

Definition fetch (url : string) : M HttpResponse :=
  fun w =>
    match network w url with
    | Some r => (Return r, w)
    | None => (Throw FetchError, w)
    end.

Definition response_json (r : HttpResponse) : M Body :=
  match json r with
  | NotJson => throw SyntaxError
  | b => ret b
  end.

Definition response_text (r : HttpResponse) : M string :=
  match body_text r with
  | Some s => ret s
  | None => throw FetchError
  end.

Definition string_of_nat (n : nat) : string :=
  NilZero.string_of_uint (Nat.to_uint n).

Definition string_of_Z (z : Z) : string :=
  NilZero.string_of_int (Z.to_int z).

(** Truthiness of a string-valued property that may be absent. *)
Definition truthy (s : option string) : bool :=
  match s with
  | Some s => negb (String.eqb s "")
  | None => false
  end.

(* ================================================================= *)
(** ** Arrays and Map *)

(** [arr.slice(start, stop)] for integer arguments; a negative index counts
    from the end. *)
Definition Array_slice {A} (start stop : Z) (l : list A) : list A :=
  let len := Z.of_nat (List.length l) in
  let from := if start <? 0 then Z.max (len + start) 0 else Z.min start len in
  let to := if stop <? 0 then Z.max (len + stop) 0 else Z.min stop len in
  firstn (Z.to_nat (to - from)) (skipn (Z.to_nat from) l).

(** [arr.sort(cmp)], as a stable insertion sort: [x] stays before [y] unless
    [cmp(x, y) > 0].  With a consistent comparator every stable sort gives
    this result; with the sampler's random one the engine is free in the
    order of its comparisons, and this is one such order.  The comparator is
    a computation, since the sampler's one draws random numbers. *)
Fixpoint Array_insert {A} (cmp : A -> A -> M Q) (x : A) (l : list A) : M (list A) :=
  match l with
  | [] => ret [x]
  | y :: ys =>
      c <- cmp x y ;;
      if Qle_bool c 0 then ret (x :: y :: ys)
      else (ys' <- Array_insert cmp x ys ;; ret (y :: ys'))
  end.

Fixpoint Array_sort {A} (cmp : A -> A -> M Q) (l : list A) : M (list A) :=
  match l with
  | [] => ret []
  | x :: xs => (s <- Array_sort cmp xs ;; Array_insert cmp x s)
  end.

(** A JavaScript [Map]: entries in insertion order; [set] on a present key
    replaces the value where it stands, on a new key appends. *)
Definition JsMap (V : Type) : Type := list (string * V).

Fixpoint Map_set {V} (k : string) (v : V) (m : JsMap V) : JsMap V :=
  match m with
  | [] => [(k, v)]
  | (k', v') :: m' =>
      if String.eqb k' k then (k', v) :: m' else (k', v') :: Map_set k v m'
  end.

Definition Map_values {V} (m : JsMap V) : list V := map snd m.

Fixpoint Map_get {V} (k : string) (m : JsMap V) : option V :=
  match m with
  | [] => None
  | (k', v') :: m' => if String.eqb k' k then Some v' else Map_get k m'
  end.

(* ================================================================= *)
(** ** The tweet store *)

Definition TWEETS_DB_FILE : string := "tweets_database.json".

Definition MAX_STORED_TWEETS : Z := 100.

(** [parsed.tweets]: a [TypeError] on [null]. *)
Definition prop_tweets (parsed : option Database) : M (option (list Tweet)) :=
  match parsed with
  | None => throw TypeError
  | Some d => ret (tweets d)
  end.

Definition or_empty {A} (o : option (list A)) : list A :=
  match o with
  | Some l => l
  | None => []
  end.

(** [error.code !== c]; only the errors of [fs] carry a code. *)
Definition code_is_not (error : Exn) (c : string) : bool :=
  match error with
  | FsError code => negb (String.eqb code c)
  | _ => true
  end.

Definition loadStoredTweets : M (list Tweet) :=
  try_catch
    (data <- fs_readFile TWEETS_DB_FILE ;;
     parsed <- JSON_parse data ;;
     ts <- prop_tweets parsed ;;
     console_log ("Loaded " ++ string_of_nat (List.length (or_empty ts))
                  ++ " stored tweets from database")%string ;;
     ret (or_empty ts))
    (fun error =>
       (if code_is_not error "ENOENT"
        then console_error "Error loading tweets database:" (Some error)
        else ret tt) ;;
       ret []).

(** The filter of [saveStoredTweets]. *)
Definition is_real (t : Tweet) : bool :=
  negb (isMockData t)
  && negb (String.prefix "mock_" (id t))
  && negb (String.prefix "client_mock_" (id t)).

(** The comparator [(a, b) => new Date(b.created_at) - new Date(a.created_at)]. *)
Definition by_date_desc (a b : Tweet) : M Q :=
  ret (inject_Z (created_at b - created_at a)).

Definition set_all (ts : list Tweet) (m : JsMap Tweet) : JsMap Tweet :=
  fold_left (fun m tweet => Map_set (id tweet) tweet m) ts m.

Definition saveStoredTweets (tweets : list Tweet) : M (list Tweet) :=
  try_catch
    (let realTweets := filter is_real tweets in
     existingTweets <- loadStoredTweets ;;
     let tweetMap := set_all realTweets (set_all existingTweets []) in
     sorted <- Array_sort by_date_desc (Map_values tweetMap) ;;
     let allTweets := Array_slice 0 MAX_STORED_TWEETS sorted in
     lastUpdated <- Date_now ;;
     fs_writeFile TWEETS_DB_FILE
       (JSON_stringify {| tweets := Some allTweets; lastUpdated := lastUpdated |}) ;;
     console_log ("Saved " ++ string_of_nat (List.length allTweets)
                  ++ " tweets to database")%string ;;
     ret allTweets)
    (fun error =>
       console_error "Error saving tweets to database:" (Some error) ;;
       ret []).

(** The comparator [() => Math.random() - 0.5]. *)
Definition coin_flip (a b : Tweet) : M Q :=
  r <- Math_random ;; ret (r - (1 # 2))%Q.

(** [count] defaults to 10 in the source; the route passes 10. *)
Definition getRandomStoredTweets (count : Z) : M (list Tweet) :=
  storedTweets <- loadStoredTweets ;;
  if Nat.eqb (List.length storedTweets) 0%nat then ret []
  else
    (shuffled <- Array_sort coin_flip storedTweets ;;
     ret (Array_slice 0 (Z.min count (Z.of_nat (List.length storedTweets))) shuffled)).

(* ================================================================= *)
(** ** Mock and sample tweets *)

Definition mkTweet (i : string) (mock : bool) (txt : string) (at_ : Z)
    (aid : string) (a : option Author) (rt rp lk qt : Z) : Tweet :=
  {| id := i; isMockData := mock; text := txt; created_at := at_;
     author_id := aid; author := a;
     public_metrics := {| retweet_count := rt; reply_count := rp;
                          like_count := lk; quote_count := qt |} |}.

Definition getMockTweets : M (list Tweet) :=
  t1 <- Date_now ;;
  t2 <- Date_now ;;
  t3 <- Date_now ;;
  ret [ mkTweet "mock_1" true
          "Bitcoin is showing strong momentum today! $BTC breaking through resistance levels ðŸš€"
          t1 "mock_user_1" None 45 12 234 5;
        mkTweet "mock_2" true
          "Institutional adoption of #Bitcoin continues to grow. Major banks now offering BTC custody services."
          (t2 - 3600000) "mock_user_2" None 89 23 456 12;
        mkTweet "mock_3" true
          "BTC price analysis: Key support at $107k holding strong. Next target $110k if we break above current resistance."
          (t3 - 7200000) "mock_user_3" None 67 34 789 8 ].

Definition sample_id (n : Z) (suffix : string) : string :=
  ("init_" ++ string_of_Z n ++ suffix)%string.

Definition sample_author (u n : string) : option Author :=
  Some (AuthorUser {| user_id := None; username := u; name := n;
                      profile_image_url := None; verified := None |}).

(** The array [sampleTweets] of [initializeSampleTweets]. *)
Definition sampleTweets : M (list Tweet) :=
  i1 <- Date_now ;; c1 <- Date_now ;;
  i2 <- Date_now ;; c2 <- Date_now ;;
  i3 <- Date_now ;; c3 <- Date_now ;;
  i4 <- Date_now ;; c4 <- Date_now ;;
  i5 <- Date_now ;; c5 <- Date_now ;;
  ret [ mkTweet (sample_id i1 "_1") false
          "Breaking: Bitcoin ETF sees record $500M inflow today as institutional interest surges. $BTC holding strong above $107k support level. The momentum continues to build."
          c1 "sample_user_1" (sample_author "cryptoanalyst" "Crypto Analyst")
          156 42 892 23;
        mkTweet (sample_id i2 "_2") false
          "MicroStrategy announces additional $250M Bitcoin purchase. Now holding over 189,000 BTC. Michael Saylor remains bullish on the digital gold thesis."
          (c2 - 3600000) "sample_user_2" (sample_author "btcnewswire" "BTC News Wire")
          234 67 1453 45;
        mkTweet (sample_id i3 "_3") false
          "Lightning Network capacity hits new ATH with 6,000+ BTC locked. Payment channels growing 15% month-over-month. #Bitcoin adoption accelerating."
          (c3 - 7200000) "sample_user_3"
          (sample_author "lightningdev" "Lightning Network Stats")
          89 23 567 12;
        mkTweet (sample_id i4 "_4") false
          "Bitcoin mining difficulty adjusts +3.2% as hash rate reaches new all-time high. Network security stronger than ever. $BTC fundamentals remain robust."
          (c4 - 10800000) "sample_user_4"
          (sample_author "miningpoolstats" "Mining Pool Statistics")
          78 19 445 8;
        mkTweet (sample_id i5 "_5") false
          "El Salvador reports $400M profit on Bitcoin holdings. President Bukele says the country will continue its BTC accumulation strategy."
          (c5 - 14400000) "sample_user_5"
          (sample_author "globalbtc" "Global Bitcoin News")
          345 89 2134 67 ].

Definition initializeSampleTweets : M unit :=
  existingTweets <- loadStoredTweets ;;
  if Nat.eqb (List.length existingTweets) 0%nat then
    console_log "No tweets in database - initializing with sample tweets" ;;
    sample <- sampleTweets ;;
    saveStoredTweets sample ;;
    console_log "Initialized database with sample tweets"
  else
    console_log ("Database already contains "
                 ++ string_of_nat (List.length existingTweets) ++ " tweets")%string.

(* ================================================================= *)
(** ** The bearer token *)

Definition get_twitterBearerToken : M (option string) :=
  fun w => (Return (twitterBearerToken w), w).

Definition set_twitterBearerToken (t : option string) : M unit :=
  fun w => (Return tt, with_token t w).

Definition process_env_TWITTER_BEARER_TOKEN : M (option string) :=
  fun w => (Return (env_TWITTER_BEARER_TOKEN w), w).

(** [data.access_token]: a [TypeError] on [null]. *)
Definition prop_access_token (b : Body) : M (option string) :=
  match b with
  | JsonNull => throw TypeError
  | JsonObj o => ret (access_token o)
  | _ => ret None
  end.

(** The request headers of a [fetch] are left out: the answer of the
    environment is indexed by the URL alone. *)
Definition getTwitterBearerToken : M (option string) :=
  tok <- get_twitterBearerToken ;;
  if truthy tok then
    console_log "Using provided Twitter Bearer token" ;;
    get_twitterBearerToken
  else
    try_catch
      (response <- fetch "https://api.twitter.com/oauth2/token" ;;
       data <- response_json response ;;
       token <- prop_access_token data ;;
       if truthy token then
         set_twitterBearerToken token ;;
         console_log "Twitter Bearer token obtained successfully" ;;
         get_twitterBearerToken
       else
         console_error "Failed to get Twitter bearer token:" None ;;
         process_env_TWITTER_BEARER_TOKEN)
      (fun error =>
         console_error "Error getting Twitter bearer token:" (Some error) ;;
         process_env_TWITTER_BEARER_TOKEN).

(* ================================================================= *)
(** ** The route [/api/twitter/search] *)

Record Request := {
  query_limit : option string
}.

Inductive ResBody :=
| ErrorJson (error : string)
| TweetsJson (data : list Tweet) (includes : Includes) (isStoredData : bool)
| PassThrough (upstream : Body).

Record Response := {
  statusCode : Z;
  payload : ResBody
}.

Definition res_json (b : ResBody) : M Response :=
  ret {| statusCode := 200; payload := b |}.

Definition res_status_json (code : Z) (b : ResBody) : M Response :=
  ret {| statusCode := code; payload := b |}.

Definition no_users : Includes := {| users := Some [] |}.

Definition DEFAULT_AUTHOR : User :=
  {| user_id := None; username := "btc_trader"; name := "Bitcoin Trader";
     profile_image_url := None; verified := None |}.

Definition user_key (u : User) : string :=
  match user_id u with
  | Some k => k
  | None => "undefined"
  end.

(** What a read of [userMap[k]] can give, and what [tweet.author] can be. *)
Inductive Value :=
| VUser (u : User)
| VString (s : string)
| VBool (b : bool)
| VNull
| VUndefined
| VFunction (name : string)
| VBareObject.

Definition truthy_value (v : Value) : bool :=
  match v with
  | VUser _ => true
  | VString s => negb (String.eqb s "")
  | VBool b => b
  | VNull => false
  | VUndefined => false
  | VFunction _ => true
  | VBareObject => true
  end.

(** The methods every plain object inherits from [Object.prototype]; the
    accessor [__proto__] is dealt with apart. *)
Definition Object_prototype_methods : list string :=
  ["constructor"; "__defineGetter__"; "__defineSetter__"; "hasOwnProperty";
   "__lookupGetter__"; "__lookupSetter__"; "isPrototypeOf"; "propertyIsEnumerable";
   "toString"; "valueOf"; "toLocaleString"].

Definition Object_prototype_get (k : string) : Value :=
  if existsb (String.eqb k) Object_prototype_methods then VFunction k else VUndefined.

(** The own property [k] of a user object, if it has one. *)
Definition user_get (k : string) (u : User) : option Value :=
  if String.eqb k "id" then option_map VString (user_id u)
  else if String.eqb k "username" then Some (VString (username u))
  else if String.eqb k "name" then Some (VString (name u))
  else if String.eqb k "profile_image_url" then
    Some (match profile_image_url u with
          | Some url => VString url
          | None => VNull
          end)
  else if String.eqb k "verified" then option_map VBool (verified u)
  else None.

(** The plain object [userMap = {}]: its own properties, and the user object
    an assignment to [__proto__] has put between it and
    [Object.prototype], if any. *)
Record PlainObject := {
  own : JsMap User;
  prototype : option User
}.

(** [userMap[k] = user] *)
Definition Object_set (k : string) (user : User) (o : PlainObject) : PlainObject :=
  if String.eqb k "__proto__" then {| own := own o; prototype := Some user |}
  else {| own := Map_set k user (own o); prototype := prototype o |}.

(** [userMap[k]] *)
Definition Object_get (k : string) (o : PlainObject) : Value :=
  match Map_get k (own o) with
  | Some user => VUser user
  | None =>
      if String.eqb k "__proto__" then
        match prototype o with
        | Some user => VUser user
        | None => VBareObject
        end
      else
        match prototype o with
        | Some user =>
            match user_get k user with
            | Some v => v
            | None => Object_prototype_get k
            end
        | None => Object_prototype_get k
        end
  end.

Definition userMap_of (us : list User) : PlainObject :=
  fold_left (fun m user => Object_set (user_key user) user m) us
    {| own := []; prototype := None |}.

(** A value as [JSON.stringify] and [res.json] render it in a property: a
    function or [undefined] is left out, an object without own property is
    [{}]. *)
Definition render (v : Value) : option Author :=
  match v with
  | VUser u => Some (AuthorUser u)
  | VString s => Some (AuthorString s)
  | VBool b => Some (AuthorBool b)
  | VNull => None
  | VUndefined => None
  | VFunction _ => None
  | VBareObject => Some AuthorEmpty
  end.

(** [tweet.author], read from a tweet. *)
Definition author_value (a : option Author) : Value :=
  match a with
  | Some (AuthorUser u) => VUser u
  | Some AuthorEmpty => VBareObject
  | Some (AuthorString s) => VString s
  | Some (AuthorBool b) => VBool b
  | None => VUndefined
  end.

(** [{ ...tweet, author: a }], with the author as it is rendered. *)
Definition with_author (a : option Author) (tweet : Tweet) : Tweet :=
  {| id := id tweet; isMockData := isMockData tweet; text := text tweet;
     created_at := created_at tweet; author_id := author_id tweet;
     author := a; public_metrics := public_metrics tweet |}.

(** [v || { username: 'btc_trader', ... }] *)
Definition or_default (v : Value) : Value :=
  if truthy_value v then v else VUser DEFAULT_AUTHOR.

(** The tweets the route answers with and hands to the merge, each as JSON
    renders it, which is all that the answer and the backing file show of
    it. *)
Definition processTweets (o : JsonObject) (ts : list Tweet) : list Tweet :=
  match includes o with
  | Some {| users := Some us |} =>
      let userMap := userMap_of us in
      map (fun tweet =>
             with_author (render (or_default (Object_get (author_id tweet) userMap))) tweet)
          ts
  | _ =>
      map (fun tweet => with_author (render (or_default (author_value (author tweet)))) tweet)
          ts
  end.

(** [data.data]: a [TypeError] on [null]. *)
Definition prop_data (b : Body) : M (option (list Tweet)) :=
  match b with
  | JsonNull => throw TypeError
  | JsonObj o => ret (data o)
  | _ => ret None
  end.

Definition includes_or_default (b : Body) : Includes :=
  match b with
  | JsonObj {| includes := Some i |} => i
  | _ => no_users
  end.

(** [encodeURIComponent('(BTC OR Bitcoin) -is:retweet lang:en')] *)
Definition query : string := "(BTC%20OR%20Bitcoin)%20-is%3Aretweet%20lang%3Aen".

Definition twitterUrl (req : Request) : string :=
  let maxResults := if truthy (query_limit req)
                    then match query_limit req with Some l => l | None => "20" end
                    else "20" in
  ("https://api.twitter.com/2/tweets/search/recent?query=" ++ query
   ++ "&max_results=" ++ maxResults
   ++ "&tweet.fields=created_at,author_id,public_metrics&expansions=author_id&user.fields=name,username,profile_image_url,verified")%string.

Definition nonempty {A} (l : list A) : bool := Nat.ltb 0 (List.length l).

Definition twitter_search (req : Request) : M Response :=
  try_catch
    (token <- getTwitterBearerToken ;;
     if negb (truthy token) then
       console_log "No Twitter token available - returning stored tweets" ;;
       storedTweets <- getRandomStoredTweets 10 ;;
       if nonempty storedTweets then
         res_json (TweetsJson storedTweets no_users true)
       else
         res_status_json 500 (ErrorJson "Failed to authenticate with Twitter")
     else
       console_log "Fetching Twitter data..." ;;
       response <- fetch (twitterUrl req) ;;
       if negb (ok response) then
         errorText <- response_text response ;;
         console_error ("Twitter API error: " ++ string_of_Z (status response)
                        ++ " " ++ errorText)%string None ;;
         console_log "Twitter API failed - returning stored tweets from database" ;;
         storedTweets <- getRandomStoredTweets 10 ;;
         if nonempty storedTweets then
           console_log ("Returning " ++ string_of_nat (List.length storedTweets)
                        ++ " stored tweets from database")%string ;;
           res_json (TweetsJson storedTweets no_users true)
         else
           console_log "No stored tweets available - returning mock tweets as last resort" ;;
           mock <- getMockTweets ;;
           res_json (TweetsJson mock no_users false)
       else
         data <- response_json response ;;
         posts <- prop_data data ;;
         if nonempty (or_empty posts) then
           console_log ("Got " ++ string_of_nat (List.length (or_empty posts))
                        ++ " real tweets from Twitter API")%string ;;
           let processedTweets :=
             match data with
             | JsonObj o => processTweets o (or_empty posts)
             | _ => or_empty posts
             end in
           saveStoredTweets processedTweets ;;
           res_json (TweetsJson processedTweets (includes_or_default data) false)
         else
           res_json (PassThrough data))
    (fun error =>
       console_error "Twitter proxy error:" (Some error) ;;
       storedTweets <- getRandomStoredTweets 10 ;;
       if nonempty storedTweets then
         console_log ("Error occurred - returning "
                      ++ string_of_nat (List.length storedTweets) ++ " stored tweets")%string ;;
         res_json (TweetsJson storedTweets no_users true)
       else
         mock <- getMockTweets ;;
         res_json (TweetsJson mock no_users false)).

(* ================================================================= *)
(** ** The other proxy routes *)

(** [s.slice(n)] on a string. *)
Fixpoint String_drop (n : nat) (s : string) : string :=
  match n, s with
  | O, _ => s
  | S n', String _ s' => String_drop n' s'
  | S _, EmptyString => EmptyString
  end.

(** [s.replace(pat, rep)] for a string pattern: the first occurrence only.
    ([rep] holds no [$] pattern in the source.) *)
Fixpoint String_replace (pat rep s : string) : string :=
  if String.prefix pat s then (rep ++ String_drop (String.length pat) s)%string
  else match s with
       | EmptyString => EmptyString
       | String a s' => String a (String_replace pat rep s')
       end.

(** [s.split(c)] for a separator of one character. *)
Fixpoint String_split (c : ascii) (s : string) : list string :=
  match s with
  | EmptyString => [EmptyString]
  | String a s' =>
      if Ascii.eqb a c then EmptyString :: String_split c s'
      else match String_split c s' with
           | h :: t => String a h :: t
           | [] => [String a EmptyString]
           end
  end.

(** A request, by what the proxy routes read of it. *)
Record ProxyRequest := {
  req_path : string;
  originalUrl : string
}.

Inductive ProxyBody :=
| Forwarded (upstream : Body)
| ProxyError (error : string) (details : Exn)
| EmptyArray
| Price (symbol price : string).

Record ProxyResponse := {
  proxyStatus : Z;
  proxyBody : ProxyBody
}.

Definition limitlessUrl (req : ProxyRequest) : string :=
  let apiPath := String_replace "/api/limitless/" "" (req_path req) in
  let queryString := nth 1 (String_split "?"%char (originalUrl req)) "" in
  ("https://api.limitless.exchange/" ++ apiPath
   ++ (if truthy (Some queryString) then "?" ++ queryString else ""))%string.

(** [app.get('/api/limitless/*')] *)
Definition limitless_proxy (req : ProxyRequest) : M ProxyResponse :=
  try_catch
    (console_log ("Proxying request to: " ++ limitlessUrl req)%string ;;
     response <- fetch (limitlessUrl req) ;;
     data <- response_json response ;;
     ret {| proxyStatus := 200; proxyBody := Forwarded data |})
    (fun error =>
       console_error "Proxy error:" (Some error) ;;
       ret {| proxyStatus := 500; proxyBody := ProxyError "Proxy request failed" error |}).

(** [req.query] of the Binance routes; a missing parameter prints as
    [undefined] in a template literal. *)
Record BinanceQuery := {
  symbol : option string;
  interval : option string;
  startTime : option string;
  endTime : option string;
  limit : option string
}.

Definition template (o : option string) : string :=
  match o with
  | Some s => s
  | None => "undefined"
  end.

Definition klinesUrl (q : BinanceQuery) : string :=
  ("https://api.binance.com/api/v3/klines?symbol=" ++ template (symbol q)
   ++ "&interval=" ++ template (interval q)
   ++ "&startTime=" ++ template (startTime q)
   ++ "&endTime=" ++ template (endTime q)
   ++ "&limit=" ++ template (limit q))%string.

(** [app.get('/api/binance/klines')] *)
Definition binance_klines (q : BinanceQuery) : M ProxyResponse :=
  try_catch
    (console_log "Proxying Binance klines request" ;;
     response <- fetch (klinesUrl q) ;;
     data <- response_json response ;;
     ret {| proxyStatus := 200; proxyBody := Forwarded data |})
    (fun error =>
       console_error "Binance klines proxy error:" (Some error) ;;
       ret {| proxyStatus := 200; proxyBody := EmptyArray |}).

Definition tickerUrl (q : BinanceQuery) : string :=
  ("https://api.binance.com/api/v3/ticker/price?symbol=" ++ template (symbol q))%string.

(** [app.get('/api/binance/ticker')] *)
Definition binance_ticker (q : BinanceQuery) : M ProxyResponse :=
  try_catch
    (console_log "Proxying Binance ticker request" ;;
     response <- fetch (tickerUrl q) ;;
     data <- response_json response ;;
     ret {| proxyStatus := 200; proxyBody := Forwarded data |})
    (fun error =>
       console_error "Binance ticker proxy error:" (Some error) ;;
       ret {| proxyStatus := 200; proxyBody := Price "BTCUSDT" "107000.00" |}).

(* ================================================================= *)
(** ** The variant of the server without the store *)

Module Legacy.

(** Its mock tweets carry no [isMockData]. *)
Definition getMockTweets : M (list Tweet) :=
  t1 <- Date_now ;;
  t2 <- Date_now ;;
  t3 <- Date_now ;;
  ret [ mkTweet "mock_1" false
          "Bitcoin is showing strong momentum today! $BTC breaking through resistance levels 🚀"
          t1 "mock_user_1" None 45 12 234 5;
        mkTweet "mock_2" false
          "Institutional adoption of #Bitcoin continues to grow. Major banks now offering BTC custody services."
          (t2 - 3600000) "mock_user_2" None 89 23 456 12;
        mkTweet "mock_3" false
          "BTC price analysis: Key support at $107k holding strong. Next target $110k if we break above current resistance."
          (t3 - 7200000) "mock_user_3" None 67 34 789 8 ].

(** Its route [/api/twitter/search]; [getTwitterBearerToken] is the same
    function in both variants. *)
Definition twitter_search (req : Request) : M Response :=
  try_catch
    (token <- getTwitterBearerToken ;;
     if negb (truthy token) then
       res_status_json 500 (ErrorJson "Failed to authenticate with Twitter")
     else
       console_log "Fetching Twitter data..." ;;
       response <- fetch (twitterUrl req) ;;
       if negb (ok response) then
         errorText <- response_text response ;;
         console_error ("Twitter API error: " ++ string_of_Z (status response)
                        ++ " " ++ errorText)%string None ;;
         (if status response =? 429 then
            console_log "Rate limit exceeded - returning mock tweets"
          else if status response =? 403 then
            console_log "Authentication issue - check if app is attached to a project"
          else ret tt) ;;
         mock <- getMockTweets ;;
         res_json (TweetsJson mock no_users false)
       else
         data <- response_json response ;;
         res_json (PassThrough data))
    (fun error =>
       console_error "Twitter proxy error:" (Some error) ;;
       mock <- getMockTweets ;;
       res_json (TweetsJson mock no_users false)).

End Legacy.

(* ================================================================= *)
(** ** Definitions used to state the properties *)

(** *** Sorting *)

(** [arr.sort(cmp)] for a comparator [f] that has no effect. *)
Fixpoint insert_pure {A} (f : A -> A -> Q) (x : A) (l : list A) : list A :=
  match l with
  | [] => [x]
  | y :: ys => if Qle_bool (f x y) 0 then x :: y :: ys else y :: insert_pure f x ys
  end.

Fixpoint sort_pure {A} (f : A -> A -> Q) (l : list A) : list A :=
  match l with
  | [] => []
  | x :: xs => insert_pure f x (sort_pure f xs)
  end.

Definition date_diff (a b : Tweet) : Q := inject_Z (created_at b - created_at a).

(** [newer_eq a b]: [a] may stand before [b]. *)
Definition newer_eq (a b : Tweet) : Prop := created_at b <= created_at a.

Definition sort_desc : list Tweet -> list Tweet := sort_pure date_diff.

(** *** Maps keyed by tweet id *)

Definition Map_keys {V} (m : JsMap V) : list string := map fst m.

Definition ids (ts : list Tweet) : list string := map id ts.

Definition entries (ts : list Tweet) : JsMap Tweet := map (fun t => (id t, t)) ts.

(** The last tweet of [ts] whose id is [k]. *)
Definition last_with (k : string) (ts : list Tweet) : option Tweet :=
  find (fun t => String.eqb (id t) k) (rev ts).

Definition keyed (m : JsMap Tweet) : Prop := Forall (fun kv => fst kv = id (snd kv)) m.

(** *** The merge, as a function of the stored and the new tweets *)

(** The values of [tweetMap] once both loops of [saveStoredTweets] ran. *)
Definition combined (existing batch : list Tweet) : list Tweet :=
  Map_values (set_all (filter is_real batch) (set_all existing [])).

(** [allTweets] of [saveStoredTweets]. *)
Definition merged (existing batch : list Tweet) : list Tweet :=
  Array_slice 0 MAX_STORED_TWEETS (sort_desc (combined existing batch)).

Definition cap : nat := Z.to_nat MAX_STORED_TWEETS.

(** *** The store operations, as changes of the world *)

(** The tweets in the backing file, as [loadStoredTweets] reads them. *)
Definition stored (w : World) : list Tweet :=
  match files w TWEETS_DB_FILE with
  | Contents (Encodes (Some d)) => or_empty (tweets d)
  | _ => []
  end.

Definition loading_error : string := "Error loading tweets database:".

(** What [loadStoredTweets] prints. *)
Definition load_report (w : World) : list LogEntry :=
  match files w TWEETS_DB_FILE with
  | Unreadable code =>
      if String.eqb code "ENOENT" then []
      else [ConsoleError loading_error (Some (FsError code))]
  | Contents Malformed => [ConsoleError loading_error (Some SyntaxError)]
  | Contents (Encodes None) => [ConsoleError loading_error (Some TypeError)]
  | Contents (Encodes (Some d)) =>
      [ConsoleLog ("Loaded " ++ string_of_nat (List.length (or_empty (tweets d)))
             ++ " stored tweets from database")%string]
  end.

Definition after_load (w : World) : World :=
  with_console (console w ++ load_report w)
    (with_fs_calls (fs_calls w ++ [ReadFile TWEETS_DB_FILE]) w).

Definition saving_error : string := "Error saving tweets to database:".

(** The world after [saveStoredTweets tweets], by the outcome of the write. *)
Definition after_save (tweets : list Tweet) (w : World) : World :=
  let all := merged (stored w) tweets in
  let calls := fs_calls w ++ [ReadFile TWEETS_DB_FILE] ++ [WriteFile TWEETS_DB_FILE] in
  match write_fault w with
  | None =>
      with_console
        (console w ++ load_report w
         ++ [ConsoleLog ("Saved " ++ string_of_nat (List.length all) ++ " tweets to database")%string])
        (with_files
           (fun p => if String.eqb p TWEETS_DB_FILE
                     then Contents (JSON_stringify {| tweets := Some all; lastUpdated := now w |})
                     else files w p)
           (with_fs_calls calls w))
  | Some (RejectedAtOpen code) =>
      with_console
        (console w ++ load_report w ++ [ConsoleError saving_error (Some (FsError code))])
        (with_fs_calls calls w)
  | Some (RejectedAfterOpen code) =>
      with_console
        (console w ++ load_report w ++ [ConsoleError saving_error (Some (FsError code))])
        (with_files
           (fun p => if String.eqb p TWEETS_DB_FILE then Contents Malformed else files w p)
           (with_fs_calls calls w))
  end.


(** A process that stops inside [fs.writeFile(path, text)]: the file was
    opened with flag ['w'], which empties it, and holds at most a proper
    prefix of the text, on which [JSON.parse] throws. *)
Definition interrupted_write (path : string) (w : World) : World :=
  with_files (fun p => if String.eqb p path then Contents Malformed else files w p)
    (with_fs_calls (fs_calls w ++ [WriteFile path]) w).

(** [saveStoredTweets] stopped inside its write. *)
Definition crash_in_save (w : World) : World :=
  interrupted_write TWEETS_DB_FILE (after_load w).

(** [t] is one of the posts of an answer of the upstream. *)
Definition fetched_live (w : World) (t : Tweet) : Prop :=
  exists url r o posts,
    network w url = Some r /\ json r = JsonObj o /\ data o = Some posts
    /\ In (id t) (ids posts).

(** *** The route *)

(** What stays as it was while the token is fetched and lines are logged. *)
Definition same_env (w w' : World) : Prop :=
  files w' = files w /\ write_fault w' = write_fault w /\ fs_calls w' = fs_calls w
  /\ network w' = network w /\ now w' = now w /\ random_calls w' = random_calls w.

(** The token the route obtains in [w]. *)
Definition token_at (w : World) : option string :=
  match fst (getTwitterBearerToken w) with
  | Return token => token
  | Throw _ => None
  end.

(** The placeholder set at the time of [w]. *)
Definition placeholder (w : World) : list Tweet :=
  match fst (getMockTweets w) with
  | Return mock => mock
  | Throw _ => []
  end.

(** The live fetch of the route fails: [fetch] rejects, the status is not a
    success, or the body is not JSON or is [null]. *)
Definition live_failed (req : Request) (w : World) : bool :=
  match network w (twitterUrl req) with
  | None => true
  | Some response =>
      negb (ok response)
      || match json response with
         | NotJson | JsonNull => true
         | _ => false
         end
  end.

(** The answer is a non-empty sample of the store, marked [isStoredData]. *)
Definition from_cache (w : World) (r : Response) : Prop :=
  statusCode r = 200
  /\ exists sample, payload r = TweetsJson sample no_users true
                    /\ sample <> [] /\ forall t, In t sample -> In t (stored w).

(** The store is empty and the answer is the placeholder set. *)
Definition from_placeholder (w : World) (r : Response) : Prop :=
  stored w = [] /\ statusCode r = 200
  /\ payload r = TweetsJson (placeholder w) no_users false.

Definition auth_failure : string := "Failed to authenticate with Twitter".

(** *** Sample worlds *)

Definition no_files : string -> FileState := fun _ => Unreadable "ENOENT".

(** No backing file, a disk that accepts writes, no token, no network. *)
Definition quiet_world : World :=
  mkWorld no_files None [] [] None None (fun _ => None) (fun _ => (1 # 4)%Q) 0
    1700000000000.

Definition tweet_a : Tweet :=
  mkTweet "1001" false "BTC above 107k" 1700000000000 "u1" None 1 2 3 4.

Definition tweet_b : Tweet :=
  mkTweet "1002" false "Bitcoin ETF inflows" 1700000050000 "u2" None 5 6 7 8.

Definition database_of (ts : list Tweet) : string -> FileState :=
  fun p => if String.eqb p TWEETS_DB_FILE
           then Contents (Encodes (Some {| tweets := Some ts; lastUpdated := 1699999999000 |}))
           else Unreadable "ENOENT".

(** The store holds [ts]. *)
Definition world_with (ts : list Tweet) : World := with_files (database_of ts) quiet_world.

(** The store holds [ts] and the disk is full. *)
Definition full_disk_world (ts : list Tweet) : World :=
  mkWorld (database_of ts) (Some (RejectedAfterOpen "ENOSPC")) [] [] None None (fun _ => None)
    (fun _ => (1 # 4)%Q) 0 1700000000000.

Definition plain_request : Request := {| query_limit := None |}.

(** A token is set, and every URL answers with a success whose JSON object
    has the given [data]. *)
Definition answering_world (posts : option (list Tweet)) : World :=
  mkWorld (database_of [tweet_a]) None [] [] (Some "AAAA") None
    (fun _ => Some {| ok := true; status := 200; body_text := Some "{}";
                      json := JsonObj {| access_token := None; data := posts;
                                         includes := None |} |})
    (fun _ => (1 # 4)%Q) 0 1700000000000.

(** *** More sample worlds and notions *)

(** The sample tweets [initializeSampleTweets] builds at the time of [w]. *)
Definition seed (w : World) : list Tweet :=
  match fst (sampleTweets w) with
  | Return sample => sample
  | Throw _ => []
  end.

Definition oauth_url : string := "https://api.twitter.com/oauth2/token".

Definition with_network (n : string -> option HttpResponse) (w : World) : World :=
  mkWorld (files w) (write_fault w) (fs_calls w) (console w) (twitterBearerToken w)
    (env_TWITTER_BEARER_TOKEN w) n (random w) (random_calls w) (now w).

(** The last user of [us] filed under [k] in [userMap]. *)
Definition last_user (k : string) (us : list User) : option User :=
  find (fun u => String.eqb (user_key u) k) (rev us).

(** [c] occurs in [s]. *)
Fixpoint occurs (c : ascii) (s : string) : bool :=
  match s with
  | EmptyString => false
  | String a s' => Ascii.eqb a c || occurs c s'
  end.

Definition json_answer (b : Body) : HttpResponse :=
  {| ok := true; status := 200; body_text := Some "{}"; json := b |}.

(** No token yet; the token endpoint grants [AAAA]. *)
Definition granting_world : World :=
  with_network
    (fun url => if String.eqb url oauth_url
                then Some (json_answer (JsonObj {| access_token := Some "AAAA";
                                                    data := None; includes := None |}))
                else None)
    quiet_world.

(** The token endpoint answers with a JSON object that holds a non-empty
    [access_token]. *)
Definition oauth_grants (w : World) : bool :=
  match network w oauth_url with
  | Some r => match json r with
              | JsonObj o => truthy (access_token o)
              | _ => false
              end
  | None => false
  end.


Definition tweet_c : Tweet :=
  mkTweet "1003" false "Hash rate at a new high" 1700000090000 "u7" None 0 1 2 3.

Definition user_u7 : User :=
  {| user_id := Some "u7"; username := "miner"; name := "A Miner";
     profile_image_url := None; verified := Some false |}.



(** One step of the loop that fills [userMap]. *)
Definition set_user (m : PlainObject) (user : User) : PlainObject :=
  Object_set (user_key user) user m.

(** A tweet by the author [aid]. *)
Definition tweet_by (aid : string) : Tweet :=
  mkTweet "1009" false "A tweet" 1700000000000 aid None 0 0 0 0.

(* ================================================================= *)
(** ** Sorting with a comparator that has no effect *)

Section PureSort.
Context {A : Type} (f : A -> A -> Q).

Lemma Array_insert_pure x l w :
  Array_insert (fun a b => ret (f a b)) x l w = (Return (insert_pure f x l), w).
Proof.
  induction l as [|y ys IH]; simpl; [reflexivity|].
  unfold bind, ret in *. destruct (Qle_bool (f x y) 0); [reflexivity|].
  now rewrite IH.
Qed.

Lemma Array_sort_pure l w :
  Array_sort (fun a b => ret (f a b)) l w = (Return (sort_pure f l), w).
Proof.
  induction l as [|x xs IH]; simpl; [reflexivity|].
  unfold bind. rewrite IH. apply Array_insert_pure.
Qed.

Lemma insert_pure_perm x l : Permutation (x :: l) (insert_pure f x l).
Proof.
  induction l as [|y ys IH]; simpl; [reflexivity|].
  destruct (Qle_bool (f x y) 0); [reflexivity|].
  rewrite perm_swap. now constructor.
Qed.

Lemma sort_pure_perm l : Permutation l (sort_pure f l).
Proof.
  induction l as [|x xs IH]; simpl; [constructor|].
  rewrite <- insert_pure_perm. now constructor.
Qed.
End PureSort.

(** *** By date, newest first *)

Lemma Qle_bool_inject_Z z : Qle_bool (inject_Z z) 0 = (z <=? 0).
Proof. unfold Qle_bool, inject_Z; simpl. now rewrite Z.mul_1_r. Qed.

Lemma date_diff_le a b : Qle_bool (date_diff a b) 0 = true <-> newer_eq a b.
Proof.
  unfold date_diff, newer_eq. rewrite Qle_bool_inject_Z, Z.leb_le. lia.
Qed.

Lemma date_diff_gt a b : Qle_bool (date_diff a b) 0 = false <-> created_at a < created_at b.
Proof.
  unfold date_diff. rewrite Qle_bool_inject_Z, Z.leb_gt. lia.
Qed.

Lemma Array_sort_by_date l w :
  Array_sort by_date_desc l w = (Return (sort_desc l), w).
Proof. apply (Array_sort_pure date_diff). Qed.

Lemma sort_desc_perm l : Permutation l (sort_desc l).
Proof. apply sort_pure_perm. Qed.

Lemma insert_desc_sorted x l :
  StronglySorted newer_eq l -> StronglySorted newer_eq (insert_pure date_diff x l).
Proof.
  induction 1 as [|y ys Hs IH Hall]; simpl.
  - repeat constructor.
  - destruct (Qle_bool (date_diff x y) 0) eqn:E.
    + apply date_diff_le in E. constructor; [now constructor|].
      constructor; [exact E|].
      eapply Forall_impl; [|exact Hall]. unfold newer_eq in *. intros; lia.
    + apply date_diff_gt in E. constructor; [exact IH|].
      apply (Permutation_Forall (insert_pure_perm date_diff x ys)).
      constructor; [unfold newer_eq; lia | exact Hall].
Qed.

Lemma sort_desc_sorted l : StronglySorted newer_eq (sort_desc l).
Proof.
  induction l as [|x xs IH]; simpl; [constructor|].
  now apply insert_desc_sorted.
Qed.

(** A newest-first list followed by entries none of which is newer: sorting
    leaves the first part where it is. *)
Lemma sort_desc_app_sorted r d :
  StronglySorted newer_eq r ->
  Forall (fun x => Forall (newer_eq x) d) r ->
  sort_desc (r ++ d) = r ++ sort_desc d.
Proof.
  induction 1 as [|x xs Hs IH Hall]; intros Hd; [reflexivity|].
  inversion Hd as [|? ? Hx Hxs]; subst.
  change (sort_desc ((x :: xs) ++ d)) with (insert_pure date_diff x (sort_desc (xs ++ d))).
  rewrite (IH Hxs).
  assert (Hge : Forall (newer_eq x) (xs ++ sort_desc d)).
  { apply Forall_app; split; [exact Hall|].
    apply (Permutation_Forall (sort_desc_perm d)), Hx. }
  change ((x :: xs) ++ sort_desc d) with (x :: (xs ++ sort_desc d)).
  destruct (xs ++ sort_desc d) as [|y ys]; [reflexivity|].
  simpl. inversion Hge as [|? ? Hy _]; subst.
  apply date_diff_le in Hy. now rewrite Hy.
Qed.

Lemma sort_desc_fixed r : StronglySorted newer_eq r -> sort_desc r = r.
Proof.
  intros Hs. rewrite <- (app_nil_r r) at 1.
  rewrite sort_desc_app_sorted; [simpl; apply app_nil_r | exact Hs |].
  apply Forall_forall. intros; constructor.
Qed.

(** *** [slice(0, n)] *)

Lemma Array_slice_firstn {A} (n : Z) (l : list A) :
  0 <= n -> Array_slice 0 n l = firstn (Z.to_nat n) l.
Proof.
  intros Hn. unfold Array_slice.
  replace (0 <? 0) with false by reflexivity.
  replace (n <? 0) with false by (symmetry; apply Z.ltb_ge; exact Hn).
  rewrite (Z.min_l 0) by lia. simpl skipn. rewrite Z.sub_0_r.
  destruct (Z.le_ge_cases n (Z.of_nat (List.length l))) as [H|H].
  - now rewrite Z.min_l.
  - rewrite Z.min_r by exact H. rewrite Nat2Z.id.
    rewrite firstn_all. symmetry. apply firstn_all2. lia.
Qed.

(* ================================================================= *)
(** ** Facts about [Map] *)

Section MapFacts.
Context {V : Type}.
Implicit Types (m : JsMap V) (k : string) (v : V).

Lemma Map_set_new k v m : ~ In k (Map_keys m) -> Map_set k v m = m ++ [(k, v)].
Proof.
  induction m as [|[k' v'] m IH]; simpl; intros Hk; [reflexivity|].
  destruct (String.eqb_spec k' k) as [->|_]; [tauto|].
  rewrite IH by tauto. reflexivity.
Qed.

Lemma Map_set_keys_old k v m : In k (Map_keys m) -> Map_keys (Map_set k v m) = Map_keys m.
Proof.
  induction m as [|[k' v'] m IH]; simpl; intros Hk; [tauto|].
  destruct (String.eqb_spec k' k) as [->|Hne]; [reflexivity|].
  simpl. rewrite IH; [reflexivity|]. destruct Hk; [contradiction|assumption].
Qed.

Lemma Map_set_keys k v m :
  exists extra, Map_keys (Map_set k v m) = Map_keys m ++ extra
                /\ (forall k', In k' extra -> k' = k /\ ~ In k (Map_keys m)).
Proof.
  destruct (in_dec string_dec k (Map_keys m)) as [Hin|Hout].
  - exists []. rewrite Map_set_keys_old, app_nil_r by exact Hin.
    split; [reflexivity | intros ? []].
  - exists [k]. rewrite Map_set_new by exact Hout. unfold Map_keys.
    rewrite map_app. split; [reflexivity|].
    intros k' [<-|[]]. now split.
Qed.

Lemma Map_get_set k k' v m :
  Map_get k' (Map_set k v m) = if String.eqb k k' then Some v else Map_get k' m.
Proof.
  induction m as [|[k0 v0] m IH]; simpl.
  - destruct (String.eqb_spec k k'); reflexivity.
  - destruct (String.eqb_spec k0 k) as [->|Hne]; simpl.
    + destruct (String.eqb_spec k k'); reflexivity.
    + rewrite IH. destruct (String.eqb_spec k0 k') as [->|_]; [|reflexivity].
      destruct (String.eqb_spec k k'); [congruence | reflexivity].
Qed.

Lemma Map_set_NoDup k v m : NoDup (Map_keys m) -> NoDup (Map_keys (Map_set k v m)).
Proof.
  intros Hm. destruct (in_dec string_dec k (Map_keys m)) as [Hin|Hout].
  - now rewrite Map_set_keys_old.
  - rewrite Map_set_new by exact Hout. unfold Map_keys. rewrite map_app. simpl.
    apply NoDup_app; [exact Hm | repeat constructor; intros [] |].
    intros x Hx [<-|[]]. contradiction.
Qed.

Lemma Map_get_None k m : ~ In k (Map_keys m) -> Map_get k m = None.
Proof.
  induction m as [|[k' v'] m IH]; simpl; intros Hk; [reflexivity|].
  destruct (String.eqb_spec k' k) as [->|_]; [tauto|]. apply IH. tauto.
Qed.

Lemma Map_get_In k v m : NoDup (Map_keys m) -> In (k, v) m -> Map_get k m = Some v.
Proof.
  induction m as [|[k' v'] m IH]; simpl; intros Hnd Hin; [tauto|].
  inversion Hnd as [|? ? Hk' Hnd']; subst.
  destruct Hin as [Heq|Hin].
  - inversion Heq; subst. now rewrite String.eqb_refl.
  - destruct (String.eqb_spec k' k) as [->|_]; [|now apply IH].
    exfalso. apply Hk'. apply (in_map fst) in Hin. exact Hin.
Qed.

Lemma Map_get_Some k v m : Map_get k m = Some v -> In (k, v) m.
Proof.
  induction m as [|[k' v'] m IH]; simpl; [discriminate|].
  destruct (String.eqb_spec k' k) as [->|_].
  - intros [= ->]. now left.
  - intros H. right. now apply IH.
Qed.

Lemma Map_get_app k m m' :
  Map_get k (m ++ m') = match Map_get k m with
                        | Some v => Some v
                        | None => Map_get k m'
                        end.
Proof.
  induction m as [|[k' v'] m IH]; simpl; [reflexivity|].
  destruct (String.eqb k' k); [reflexivity | exact IH].
Qed.

(** A map without repeated keys is its list of keys and its lookup. *)
Lemma Map_ext m m' :
  NoDup (Map_keys m) -> Map_keys m = Map_keys m' ->
  (forall k, In k (Map_keys m) -> Map_get k m = Map_get k m') ->
  m = m'.
Proof.
  revert m'. induction m as [|[k v] m IH]; intros [|[k' v'] m'] Hnd Hk Hg;
    try discriminate; [reflexivity|].
  simpl in Hk. injection Hk as -> Hk.
  inversion Hnd as [|? ? Hout Hnd']; subst.
  pose proof (Hg k' (or_introl eq_refl)) as Hh. simpl in Hh.
  rewrite String.eqb_refl in Hh. injection Hh as ->.
  f_equal. apply IH; [exact Hnd' | exact Hk |].
  intros k Hin. specialize (Hg k (or_intror Hin)). simpl in Hg.
  destruct (String.eqb_spec k' k) as [->|_]; [contradiction | exact Hg].
Qed.
End MapFacts.

(** *** Maps keyed by tweet id *)

Lemma find_snoc {A} (p : A -> bool) l x :
  find p (l ++ [x]) = match find p l with
                      | Some y => Some y
                      | None => if p x then Some x else None
                      end.
Proof.
  induction l as [|y l IH]; simpl; [reflexivity|].
  destruct (p y); [reflexivity | exact IH].
Qed.

Lemma last_with_cons k t ts :
  last_with k (t :: ts) = match last_with k ts with
                          | Some y => Some y
                          | None => if String.eqb (id t) k then Some t else None
                          end.
Proof. unfold last_with. simpl. apply (find_snoc (fun x => String.eqb (id x) k)). Qed.

Lemma last_with_In k ts t : last_with k ts = Some t -> In t ts /\ id t = k.
Proof.
  unfold last_with. intros H. apply find_some in H. destruct H as [Hin Hk].
  split; [now apply in_rev | now apply String.eqb_eq].
Qed.

Lemma last_with_None k ts : last_with k ts = None -> ~ In k (ids ts).
Proof.
  unfold last_with, ids. intros H Hin. apply in_map_iff in Hin.
  destruct Hin as [t [<- Hin]].
  apply in_rev in Hin. apply (find_none _ _ H) in Hin.
  now rewrite String.eqb_refl in Hin.
Qed.

Lemma set_all_get k ts m :
  Map_get k (set_all ts m) = match last_with k ts with
                             | Some t => Some t
                             | None => Map_get k m
                             end.
Proof.
  revert m. induction ts as [|t ts IH]; intros m; [reflexivity|].
  change (set_all (t :: ts) m) with (set_all ts (Map_set (id t) t m)).
  rewrite IH, last_with_cons, Map_get_set.
  destruct (last_with k ts); [reflexivity|].
  destruct (String.eqb (id t) k); reflexivity.
Qed.

Lemma set_all_keys ts m :
  exists extra, Map_keys (set_all ts m) = Map_keys m ++ extra
                /\ (forall k, In k extra -> In k (ids ts) /\ ~ In k (Map_keys m)).
Proof.
  revert m. induction ts as [|t ts IH]; intros m.
  - exists []. simpl. rewrite app_nil_r. split; [reflexivity | intros ? []].
  - change (set_all (t :: ts) m) with (set_all ts (Map_set (id t) t m)).
    destruct (IH (Map_set (id t) t m)) as [e2 [He2 Hin2]].
    destruct (Map_set_keys (id t) t m) as [e1 [He1 Hin1]].
    exists (e1 ++ e2). rewrite He2, He1, app_assoc. split; [reflexivity|].
    intros k Hk. apply in_app_or in Hk. destruct Hk as [Hk|Hk].
    + destruct (Hin1 k Hk) as [-> Hout]. split; [now left | exact Hout].
    + destruct (Hin2 k Hk) as [Hts Hout]. split; [now right|].
      intros Hm. apply Hout. rewrite He1. apply in_or_app. now left.
Qed.

Lemma set_all_NoDup ts m : NoDup (Map_keys m) -> NoDup (Map_keys (set_all ts m)).
Proof.
  revert m. induction ts as [|t ts IH]; intros m Hm; [exact Hm|].
  apply IH. now apply Map_set_NoDup.
Qed.

Lemma Map_set_keyed t m : keyed m -> keyed (Map_set (id t) t m).
Proof.
  unfold keyed. induction 1 as [|[k v] m Hkv Hm IH]; simpl.
  - now repeat constructor.
  - destruct (String.eqb_spec k (id t)) as [->|_]; constructor; auto.
Qed.

Lemma set_all_keyed ts m : keyed m -> keyed (set_all ts m).
Proof.
  revert m. induction ts as [|t ts IH]; intros m Hm; [exact Hm|].
  apply IH. now apply Map_set_keyed.
Qed.

Lemma keyed_ids m : keyed m -> ids (Map_values m) = Map_keys m.
Proof.
  unfold keyed, ids, Map_values, Map_keys. induction 1 as [|[k v] m Hkv Hm IH]; simpl.
  - reflexivity.
  - simpl in Hkv. now rewrite IH, Hkv.
Qed.

Lemma keyed_value_get t m :
  keyed m -> NoDup (Map_keys m) -> In t (Map_values m) -> Map_get (id t) m = Some t.
Proof.
  intros Hk Hnd Hin. unfold Map_values in Hin. apply in_map_iff in Hin.
  destruct Hin as [[k v] [Hv Hin]]. simpl in Hv. subst v.
  apply Map_get_In; [exact Hnd|].
  unfold keyed in Hk. rewrite Forall_forall in Hk.
  specialize (Hk _ Hin). simpl in Hk. now rewrite <- Hk.
Qed.

Lemma In_values_Map_set k v (m : JsMap Tweet) t :
  In t (Map_values (Map_set k v m)) -> t = v \/ In t (Map_values m).
Proof.
  unfold Map_values. induction m as [|[k' v'] m IH]; simpl.
  - intros [<-|[]]. now left.
  - destruct (String.eqb k' k); simpl.
    + intros [<-|H]; [now left | right; now right].
    + intros [<-|H]; [right; now left|].
      destruct (IH H) as [->|H']; [now left | right; now right].
Qed.

Lemma In_values_set_all ts m t :
  In t (Map_values (set_all ts m)) -> In t ts \/ In t (Map_values m).
Proof.
  revert m. induction ts as [|x ts IH]; intros m H; [now right|].
  destruct (IH _ H) as [Hts|Hm]; [left; now right|].
  destruct (In_values_Map_set _ _ _ _ Hm) as [->|Hm']; [left; now left | now right].
Qed.

Lemma entries_keys ts : Map_keys (entries ts) = ids ts.
Proof. unfold Map_keys, entries, ids. rewrite map_map. reflexivity. Qed.

Lemma entries_values ts : Map_values (entries ts) = ts.
Proof. unfold Map_values, entries. rewrite map_map. simpl. apply map_id. Qed.

(** Tweets with distinct ids enter an empty map one after the other. *)
Lemma set_all_distinct ts m :
  NoDup (Map_keys m ++ ids ts) -> set_all ts m = m ++ entries ts.
Proof.
  revert m. induction ts as [|t ts IH]; intros m Hnd; simpl.
  - now rewrite app_nil_r.
  - change (set_all (t :: ts) m) with (set_all ts (Map_set (id t) t m)).
    assert (Hout : ~ In (id t) (Map_keys m)).
    { intros Hin. apply NoDup_remove_2 in Hnd. apply Hnd.
      apply in_or_app. now left. }
    rewrite Map_set_new by exact Hout. rewrite IH.
    + now rewrite <- app_assoc.
    + unfold Map_keys. rewrite map_app. simpl. rewrite <- app_assoc. exact Hnd.
Qed.

(* ================================================================= *)
(** ** The merge, as a function of the stored and the new tweets *)

Lemma cap_100 : cap = 100%nat.
Proof. reflexivity. Qed.

Lemma merged_firstn e b : merged e b = firstn cap (sort_desc (combined e b)).
Proof. unfold merged. now rewrite Array_slice_firstn. Qed.


Lemma StronglySorted_app_inv {A} (R : A -> A -> Prop) (a b : list A) :
  StronglySorted R (a ++ b) ->
  StronglySorted R a /\ StronglySorted R b /\ Forall (fun x => Forall (R x) b) a.
Proof.
  induction a as [|x a IH]; simpl; intros H.
  - repeat split; [constructor | exact H | constructor].
  - inversion H as [|? ? Hs Hall]; subst.
    destruct (IH Hs) as [Ha [Hb Hab]].
    apply Forall_app in Hall. destruct Hall as [Hxa Hxb].
    repeat split; [now constructor | exact Hb | now constructor].
Qed.

Lemma merged_sorted e b : StronglySorted newer_eq (merged e b).
Proof.
  rewrite merged_firstn.
  pose proof (sort_desc_sorted (combined e b)) as H.
  rewrite <- (firstn_skipn cap) in H.
  now apply StronglySorted_app_inv in H.
Qed.


Lemma In_firstn {A} (x : A) n l : In x (firstn n l) -> In x l.
Proof.
  intros H. rewrite <- (firstn_skipn n l). apply in_or_app. now left.
Qed.

Lemma merged_In e b t :
  In t (merged e b) -> In t e \/ (In t b /\ is_real t = true).
Proof.
  rewrite merged_firstn. intros H. apply In_firstn in H.
  apply (Permutation_in _ (Permutation_sym (sort_desc_perm _))) in H.
  unfold combined in H. apply In_values_set_all in H. destruct H as [H|H].
  - right. now apply filter_In in H.
  - apply In_values_set_all in H. destruct H as [H|[]]. now left.
Qed.

(** *** Merging the same batch again *)

Section MergeAgain.
Variables (n : nat) (e B : list Tweet).

Let m1 := set_all B (set_all e []).
Let S1 := sort_desc (Map_values m1).
Let r1 := firstn n S1.
Let D1 := skipn n S1.
Let m2 := set_all B (set_all r1 []).

Lemma m1_NoDup : NoDup (Map_keys m1).
Proof. apply set_all_NoDup, set_all_NoDup. constructor. Qed.

Lemma m1_keyed : keyed m1.
Proof. apply set_all_keyed, set_all_keyed. constructor. Qed.

Lemma S1_split : S1 = r1 ++ D1.
Proof. symmetry. apply firstn_skipn. Qed.

Lemma S1_In t : In t S1 <-> In t (Map_values m1).
Proof.
  split; intros H.
  - apply (Permutation_in _ (Permutation_sym (sort_desc_perm _))). exact H.
  - apply (Permutation_in _ (sort_desc_perm _)). exact H.
Qed.

Lemma S1_NoDup : NoDup (ids r1 ++ ids D1).
Proof.
  unfold ids. rewrite <- map_app, <- S1_split.
  apply (Permutation_NoDup (Permutation_map id (sort_desc_perm _))).
  fold (ids (Map_values m1)). rewrite keyed_ids by apply m1_keyed. apply m1_NoDup.
Qed.

Lemma r1_NoDup : NoDup (ids r1).
Proof. exact (NoDup_app_remove_r _ _ S1_NoDup). Qed.

Lemma r1_get t : In t r1 -> Map_get (id t) m1 = Some t.
Proof.
  intros H. apply keyed_value_get; [apply m1_keyed | apply m1_NoDup |].
  apply S1_In. rewrite S1_split. apply in_or_app. now left.
Qed.

Lemma r1_entries : set_all r1 [] = entries r1.
Proof. rewrite set_all_distinct; [reflexivity | apply r1_NoDup]. Qed.

Lemma m2_get k :
  Map_get k m2 = match last_with k B with
                 | Some t => Some t
                 | None => Map_get k (entries r1)
                 end.
Proof. unfold m2. rewrite r1_entries. apply set_all_get. Qed.

Lemma m2_NoDup : NoDup (Map_keys m2).
Proof. apply set_all_NoDup, set_all_NoDup. constructor. Qed.

Lemma entries_get t : In t r1 -> Map_get (id t) (entries r1) = Some t.
Proof.
  intros H. apply Map_get_In.
  - rewrite entries_keys. apply r1_NoDup.
  - unfold entries. apply in_map_iff. now exists t.
Qed.

(** The retained tweets keep their values in the second map. *)
Lemma m2_get_r1 t : In t r1 -> Map_get (id t) m2 = Some t.
Proof.
  intros H. rewrite m2_get. pose proof (r1_get t H) as H1.
  unfold m1 in H1. rewrite set_all_get in H1.
  destruct (last_with (id t) B); [exact H1 | now apply entries_get].
Qed.

(** The second map: the retained tweets, then tweets the cap had dropped. *)
Lemma m2_shape :
  exists D, Map_values m2 = r1 ++ D /\ (forall d, In d D -> In d D1).
Proof.
  destruct (set_all_keys B (entries r1)) as [K' [HK Hextra]].
  rewrite <- r1_entries in HK at 1. fold m2 in HK.
  rewrite entries_keys in HK, Hextra.
  unfold Map_keys in HK. apply map_eq_app in HK.
  destruct HK as [m2a [m2b [Hm2 [Ha Hb]]]].
  pose proof m2_NoDup as Hnd. rewrite Hm2 in Hnd.
  unfold Map_keys in Hnd. rewrite map_app in Hnd.
  assert (Hm2a : m2a = entries r1).
  { apply Map_ext.
    - exact (NoDup_app_remove_r _ _ Hnd).
    - rewrite entries_keys. exact Ha.
    - intros k Hk. unfold Map_keys in Hk. rewrite Ha in Hk.
      unfold ids in Hk. apply in_map_iff in Hk. destruct Hk as [t [<- Ht]].
      rewrite (entries_get t Ht).
      pose proof (m2_get_r1 t Ht) as Hg. rewrite Hm2, Map_get_app in Hg.
      destruct (Map_get (id t) m2a) eqn:E; [exact Hg|].
      exfalso. assert (Hin : In (id t) (map fst m2a)).
      { rewrite Ha. unfold ids. now apply in_map. }
      apply in_map_iff in Hin. destruct Hin as [[k v] [Hkv Hin]]. simpl in Hkv. subst k.
      apply Map_get_In in Hin; [congruence|].
      exact (NoDup_app_remove_r _ _ Hnd). }
  exists (Map_values m2b). split.
  - rewrite Hm2, Hm2a. unfold Map_values. rewrite map_app.
    fold (Map_values (entries r1)). now rewrite entries_values.
  - intros d Hd. unfold Map_values in Hd. apply in_map_iff in Hd.
    destruct Hd as [[k v] [Hv Hin]]. simpl in Hv. subst v.
    assert (Hk : In k K') by (rewrite <- Hb; now apply (in_map fst) in Hin).
    destruct (Hextra k Hk) as [HkB Hkr].
    assert (Hg : Map_get k m2 = Some d).
    { apply Map_get_In; [apply m2_NoDup|]. rewrite Hm2. apply in_or_app. now right. }
    rewrite m2_get in Hg.
    destruct (last_with k B) as [x|] eqn:E;
      [|now apply last_with_None in E].
    injection Hg as ->.
    assert (H1 : Map_get k m1 = Some d) by (unfold m1; now rewrite set_all_get, E).
    apply Map_get_Some in H1. apply (in_map snd) in H1. simpl in H1.
    fold (Map_values m1) in H1. apply S1_In in H1. rewrite S1_split in H1.
    apply in_app_or in H1. destruct H1 as [H1|H1]; [|exact H1].
    exfalso. apply Hkr. apply last_with_In in E. destruct E as [_ <-].
    unfold ids. now apply in_map.
Qed.

Lemma merge_again : firstn n (sort_desc (Map_values m2)) = r1.
Proof.
  destruct m2_shape as [D [Hv HD]]. rewrite Hv.
  pose proof (sort_desc_sorted (Map_values m1)) as Hs. fold S1 in Hs.
  rewrite S1_split in Hs. apply StronglySorted_app_inv in Hs.
  destruct Hs as [Hr [_ Hrd]].
  rewrite sort_desc_app_sorted; [|exact Hr|].
  - destruct D as [|d D'].
    + simpl. rewrite app_nil_r. apply firstn_all2. apply firstn_le_length.
    + assert (Hlen : List.length r1 = n).
      { apply firstn_length_le.
        destruct (Nat.le_gt_cases n (List.length S1)) as [H|H]; [exact H|].
        specialize (HD d (or_introl eq_refl)). unfold D1 in HD.
        rewrite skipn_all2 in HD by lia. destruct HD. }
      rewrite firstn_app, Hlen, Nat.sub_diag. simpl. rewrite app_nil_r.
      rewrite <- Hlen at 1. apply firstn_all.
  - eapply Forall_impl; [|exact Hrd]. intros x Hx.
    rewrite Forall_forall in *. intros d Hd. apply Hx, HD, Hd.
Qed.
End MergeAgain.

Lemma merged_idem e b : merged (merged e b) b = merged e b.
Proof.
  rewrite (merged_firstn (merged e b)), (merged_firstn e b).
  unfold combined. apply merge_again.
Qed.

(* ================================================================= *)
(** ** What the store operations do to the world *)

Lemma loadStoredTweets_run w : loadStoredTweets w = (Return (stored w), after_load w).
Proof.
  unfold loadStoredTweets, after_load, load_report, stored, try_catch, bind, fs_readFile.
  destruct (files w TWEETS_DB_FILE) as [code|[|[d|]]]; simpl; try reflexivity.
  unfold bind. destruct (String.eqb code "ENOENT"); simpl; [|reflexivity].
  unfold ret, with_console, with_fs_calls; simpl. now rewrite app_nil_r.
Qed.

Lemma saveStoredTweets_run tweets w :
  saveStoredTweets tweets w =
  (Return (match write_fault w with
           | None => merged (stored w) tweets
           | Some _ => []
           end),
   after_save tweets w).
Proof.
  unfold saveStoredTweets, try_catch, bind.
  rewrite loadStoredTweets_run, Array_sort_by_date.
  fold (combined (stored w) tweets). fold (merged (stored w) tweets).
  unfold Date_now, fs_writeFile, after_save, after_load.
  destruct (write_fault w) as [[code|code]|] eqn:E; simpl; rewrite E; simpl.
  - unfold console_error, bind, ret, with_console, with_fs_calls; simpl.
    now rewrite <- !app_assoc.
  - unfold console_error, bind, ret, with_console, with_fs_calls, with_files; simpl.
    now rewrite <- !app_assoc.
  - unfold console_log, bind, ret, with_console, with_fs_calls, with_files; simpl.
    now rewrite <- !app_assoc.
Qed.

Lemma after_save_fault tweets w : write_fault (after_save tweets w) = write_fault w.
Proof. unfold after_save. destruct (write_fault w) as [[c|c]|] eqn:E; simpl; exact E. Qed.

Lemma after_save_stored tweets w :
  stored (after_save tweets w) =
  match write_fault w with
  | None => merged (stored w) tweets
  | Some (RejectedAtOpen _) => stored w
  | Some (RejectedAfterOpen _) => []
  end.
Proof. unfold after_save. destruct (write_fault w) as [[c|c]|]; reflexivity. Qed.

(** *** The sampler *)

Lemma Array_insert_coin x l w :
  exists l' k, Array_insert coin_flip x l w = (Return l', with_random_calls k w)
               /\ Permutation (x :: l) l'.
Proof.
  revert w. induction l as [|y ys IH]; intros w; simpl.
  - exists [x], (random_calls w). split; [now destruct w | reflexivity].
  - unfold bind at 1. unfold coin_flip at 1. unfold bind, Math_random, ret.
    destruct (Qle_bool _ 0).
    + eexists _, _. split; [reflexivity | reflexivity].
    + destruct (IH (with_random_calls (S (random_calls w)) w)) as [l' [k [Hrun Hperm]]].
      unfold bind, ret in Hrun |- *. rewrite Hrun.
      exists (y :: l'), k. split; [reflexivity|].
      rewrite perm_swap. now constructor.
Qed.

Lemma Array_sort_coin l w :
  exists l' k, Array_sort coin_flip l w = (Return l', with_random_calls k w)
               /\ Permutation l l'.
Proof.
  revert w. induction l as [|x xs IH]; intros w; simpl.
  - exists [], (random_calls w). split; [now destruct w | constructor].
  - destruct (IH w) as [s [k [Hrun Hperm]]]. unfold bind. rewrite Hrun.
    destruct (Array_insert_coin x s (with_random_calls k w)) as [l' [k' [Hrun' Hperm']]].
    rewrite Hrun'. exists l', k'. split; [reflexivity|].
    rewrite <- Hperm'. now constructor.
Qed.

(** [getRandomStoredTweets] returns the first [min(count, size)] tweets of
    some arrangement of the store, touching only the log, the record of
    [fs] calls and the random source. *)
Lemma getRandomStoredTweets_run count w :
  exists shuffled k,
    Permutation (stored w) shuffled /\
    getRandomStoredTweets count w =
    (Return (Array_slice 0 (Z.min count (Z.of_nat (List.length (stored w)))) shuffled),
     with_random_calls k (after_load w)).
Proof.
  unfold getRandomStoredTweets, bind. rewrite loadStoredTweets_run.
  destruct (stored w) as [|t ts] eqn:E.
  - exists [], (random_calls w). split; [constructor|].
    change (Nat.eqb (List.length (@nil Tweet)) 0) with true. cbv iota.
    unfold ret, Array_slice. rewrite skipn_nil, firstn_nil.
    reflexivity.
  - change (Nat.eqb (List.length (t :: ts)) 0) with false. cbv iota.
    destruct (Array_sort_coin (t :: ts) (after_load w)) as [l' [k [Hrun Hperm]]].
    rewrite Hrun. exists l', k. split; [exact Hperm | reflexivity].
Qed.

(* ================================================================= *)
(** ** The merge on small inputs *)

Example merge_overwrites_same_id :
  merged [tweet_a; tweet_b] [mkTweet "1001" false "edited" 1700000099000 "u1" None 0 0 0 0]
  = [mkTweet "1001" false "edited" 1700000099000 "u1" None 0 0 0 0; tweet_b].
Proof. vm_compute. reflexivity. Qed.

Example merge_leaves_out_mock :
  merged [tweet_a] (placeholder quiet_world ++ [tweet_b]) = [tweet_b; tweet_a].
Proof. vm_compute. reflexivity. Qed.

Example merge_evicts_oldest :
  let old := map (fun k => mkTweet (string_of_nat k) false "" (Z.of_nat k) "u" None 0 0 0 0)
                 (seq 1 100) in
  let new := mkTweet "new" false "" 1000 "u" None 0 0 0 0 in
  List.length (merged old [new]) = 100%nat
  /\ hd_error (merged old [new]) = Some new
  /\ existsb (fun t => String.eqb (id t) "1") (merged old [new]) = false
  /\ existsb (fun t => String.eqb (id t) "2") (merged old [new]) = true.
Proof. vm_compute. repeat split. Qed.

Example sample_of_three :
  fst (getRandomStoredTweets 10 (world_with [tweet_a; tweet_b; tweet_a]))
  = Return [tweet_a; tweet_b; tweet_a].
Proof. vm_compute. reflexivity. Qed.

(* ================================================================= *)
(** ** Properties of the store *)

(** C2, as amended: when the write of [saveStoredTweets] to the backing
    file is rejected, the failure is logged and not thrown, and the call
    returns the empty array, not the merged sequence. *)
Theorem saveStoredTweets_write_failure tweets w fault :
  write_fault w = Some fault ->
  exists w',
    saveStoredTweets tweets w = (Return [], w')
    /\ console w' = console w ++ load_report w
                    ++ [ConsoleError saving_error (Some (FsError (fault_code fault)))].
Proof.
  intros Hf. exists (after_save tweets w).
  rewrite saveStoredTweets_run. unfold after_save. rewrite Hf.
  destruct fault; split; reflexivity.
Qed.

Lemma saveStoredTweets_write_failure_witness :
  write_fault (full_disk_world [tweet_a]) = Some (RejectedAfterOpen "ENOSPC")
  /\ exists w',
       saveStoredTweets [tweet_b] (full_disk_world [tweet_a]) = (Return [], w')
       /\ console w' = console (full_disk_world [tweet_a])
                       ++ load_report (full_disk_world [tweet_a])
                       ++ [ConsoleError saving_error (Some (FsError "ENOSPC"))].
Proof.
  split; [reflexivity|].
  apply (saveStoredTweets_write_failure [tweet_b] (full_disk_world [tweet_a])
           (RejectedAfterOpen "ENOSPC")).
  reflexivity.
Defined.

(** C2, as stated, fails: with one stored tweet, one new tweet and a disk
    that rejects the write, the merged sequence has two tweets and the call
    returns none. *)
Lemma write_failure_loses_result :
  merged (stored (full_disk_world [tweet_a])) [tweet_b] = [tweet_b; tweet_a]
  /\ fst (saveStoredTweets [tweet_b] (full_disk_world [tweet_a])) = Return [].
Proof. split; vm_compute; reflexivity. Qed.

(** C3, as amended: every merge reads the backing file and then issues one
    [fs.writeFile] on the backing file itself, with no rename; a write that
    completes puts the truncated result there and leaves every other path
    alone, and a merge that stops inside its write leaves a backing file
    that loads as the empty store. *)
Theorem saveStoredTweets_writes_in_place tweets w :
  let w' := snd (saveStoredTweets tweets w) in
  fs_calls w' = fs_calls w ++ [ReadFile TWEETS_DB_FILE; WriteFile TWEETS_DB_FILE]
  /\ (write_fault w = None ->
      files w' TWEETS_DB_FILE =
        Contents (Encodes (Some {| tweets := Some (merged (stored w) tweets);
                                   lastUpdated := now w |}))
      /\ forall p, p <> TWEETS_DB_FILE -> files w' p = files w p)
  /\ stored (crash_in_save w) = []
  /\ fst (loadStoredTweets (crash_in_save w)) = Return [].
Proof.
  rewrite saveStoredTweets_run. cbn [snd]. unfold after_save.
  split; [|split; [|split]].
  - destruct (write_fault w) as [[c|c]|]; reflexivity.
  - intros Hok. rewrite Hok. split; [reflexivity|].
    intros p Hp. simpl. apply String.eqb_neq in Hp. now rewrite Hp.
  - reflexivity.
  - rewrite loadStoredTweets_run. reflexivity.
Qed.

Lemma saveStoredTweets_writes_in_place_witness :
  write_fault (world_with [tweet_a]) = None
  /\ files (snd (saveStoredTweets [tweet_b] (world_with [tweet_a]))) TWEETS_DB_FILE =
       Contents (Encodes (Some {| tweets := Some [tweet_b; tweet_a];
                                  lastUpdated := 1700000000000 |})).
Proof.
  split; [reflexivity|].
  destruct (saveStoredTweets_writes_in_place [tweet_b] (world_with [tweet_a]))
    as [_ [H _]].
  destruct (H eq_refl) as [Hfile _]. exact Hfile.
Defined.

(** C3, as stated, fails: the merge writes straight onto the backing file
    (no temporary file, no rename), and stopped inside that write it leaves
    neither the previous version nor the new one. *)
Lemma saveStoredTweets_not_atomic :
  stored (world_with [tweet_a]) = [tweet_a]
  /\ fs_calls (snd (saveStoredTweets [tweet_b] (world_with [tweet_a])))
     = [ReadFile TWEETS_DB_FILE; WriteFile TWEETS_DB_FILE]
  /\ stored (crash_in_save (world_with [tweet_a])) = []
  /\ stored (crash_in_save (world_with [tweet_a])) <> stored (world_with [tweet_a]).
Proof. repeat split; try (vm_compute; reflexivity). vm_compute. discriminate. Qed.

Lemma sampleTweets_run w : sampleTweets w = (Return (seed w), w).
Proof. reflexivity. Qed.

Lemma append_inj_l (s a b : string) : (s ++ a = s ++ b)%string -> a = b.
Proof.
  induction s as [|c s IH]; simpl; [trivial|]. intros [= H]. now apply IH.
Qed.

Lemma seed_ids w :
  ids (seed w) = map (fun suffix => sample_id (now w) suffix) ["_1"; "_2"; "_3"; "_4"; "_5"].
Proof. reflexivity. Qed.

Lemma seed_NoDup w : NoDup (ids (seed w)).
Proof.
  rewrite seed_ids. apply Finite.Injective_map_NoDup.
  - intros a b H. unfold sample_id in H.
    apply append_inj_l, append_inj_l in H. exact H.
  - repeat constructor; simpl; intuition discriminate.
Qed.

Lemma seed_sorted w : StronglySorted newer_eq (seed w).
Proof.
  unfold seed, sampleTweets, bind, Date_now, ret. cbn [fst].
  repeat (constructor; [|repeat constructor; unfold newer_eq; cbn [created_at mkTweet]; lia]).
  constructor.
Qed.

Lemma seed_real w : filter is_real (seed w) = seed w.
Proof. reflexivity. Qed.

Lemma seed_merged w : merged [] (seed w) = seed w.
Proof.
  rewrite merged_firstn. unfold combined. rewrite seed_real.
  change (set_all [] []) with (@nil (string * Tweet)).
  rewrite set_all_distinct by apply seed_NoDup.
  change ([] ++ entries (seed w)) with (entries (seed w)). rewrite entries_values.
  rewrite sort_desc_fixed by apply seed_sorted.
  apply firstn_all2. rewrite cap_100. simpl. lia.
Qed.

Lemma initializeSampleTweets_stored w :
  stored (snd (initializeSampleTweets w))
  = match stored w with
    | [] => match write_fault w with
            | None => seed w
            | Some _ => []
            end
    | _ :: _ => stored w
    end.
Proof.
  unfold initializeSampleTweets, bind. rewrite loadStoredTweets_run.
  destruct (stored w) as [|t ts] eqn:E.
  - change (Nat.eqb (List.length (@nil Tweet)) 0) with true. cbv iota.
    unfold console_log at 1. rewrite sampleTweets_run, saveStoredTweets_run.
    unfold console_log. cbn [snd].
    change (stored (with_console ?c ?w0)) with (stored w0).
    rewrite after_save_stored. cbn [write_fault with_console after_load with_fs_calls].
    change (stored (with_console ?c (after_load w))) with (stored w). rewrite E.
    destruct (write_fault w) as [[c|c]|]; [reflexivity | reflexivity |].
    change (seed (with_console ?c (after_load w))) with (seed w). apply seed_merged.
  - change (Nat.eqb (List.length (t :: ts)) 0) with false. cbv iota.
    unfold console_log. cbn [snd].
    change (stored (with_console ?c (after_load w))) with (stored w). exact E.
Qed.

(** C4, as amended: a flagged tweet of the batch is left out: after a merge
    every stored tweet was stored before or is a tweet of the batch that
    carries no [isMockData] flag and whose id starts neither with [mock_]
    nor with [client_mock_].  Where a tweet comes from is not looked at: on
    an empty store with an accepted write [initializeSampleTweets] stores
    its five sample tweets, none of which is flagged. *)
Theorem saveStoredTweets_admits_only_unflagged tweets w :
  (forall t,
     In t (stored (snd (saveStoredTweets tweets w))) ->
     In t (stored w)
     \/ (In t tweets /\ isMockData t = false
         /\ String.prefix "mock_" (id t) = false
         /\ String.prefix "client_mock_" (id t) = false))
  /\ (stored w = [] -> write_fault w = None ->
      stored (snd (initializeSampleTweets w)) = seed w
      /\ List.length (seed w) = 5%nat
      /\ Forall (fun t => is_real t = true) (seed w)).
Proof.
  split.
  - intros t. rewrite saveStoredTweets_run. cbn [snd]. rewrite after_save_stored.
    destruct (write_fault w) as [[c|c]|]; [now left | intros [] |].
    intros H. apply merged_In in H. destruct H as [H|[H Hreal]]; [now left|].
    right. unfold is_real in Hreal.
    apply andb_prop in Hreal. destruct Hreal as [Hreal H3].
    apply andb_prop in Hreal. destruct Hreal as [H1 H2].
    apply negb_true_iff in H1, H2, H3. tauto.
  - intros Hempty Hok. rewrite initializeSampleTweets_stored, Hempty, Hok.
    split; [reflexivity|]. split; [reflexivity|]. repeat constructor.
Qed.

Lemma saveStoredTweets_admits_only_unflagged_witness :
  In tweet_b (stored (snd (saveStoredTweets [tweet_b] (world_with [tweet_a]))))
  /\ (In tweet_b (stored (world_with [tweet_a]))
      \/ (In tweet_b [tweet_b] /\ isMockData tweet_b = false
          /\ String.prefix "mock_" (id tweet_b) = false
          /\ String.prefix "client_mock_" (id tweet_b) = false))
  /\ stored quiet_world = [] /\ write_fault quiet_world = None
  /\ stored (snd (initializeSampleTweets quiet_world)) = seed quiet_world.
Proof.
  assert (H : In tweet_b (stored (snd (saveStoredTweets [tweet_b] (world_with [tweet_a]))))).
  { vm_compute. left. reflexivity. }
  split; [exact H|].
  split; [exact (proj1 (saveStoredTweets_admits_only_unflagged [tweet_b]
                          (world_with [tweet_a])) tweet_b H)|].
  split; [reflexivity|]. split; [reflexivity|].
  exact (proj1 (proj2 (saveStoredTweets_admits_only_unflagged [] quiet_world)
                  eq_refl eq_refl)).
Defined.

(** C4, as stated, fails: at start-up on an empty store the five hard-coded
    sample tweets, which carry no flag, go through the merge into the store,
    though no answer of the upstream holds them. *)
Lemma sample_tweets_persisted :
  let w' := snd (initializeSampleTweets quiet_world) in
  map id (stored w') =
    ["init_1700000000000_1"; "init_1700000000000_2"; "init_1700000000000_3";
     "init_1700000000000_4"; "init_1700000000000_5"]
  /\ Forall (fun t => isMockData t = false) (stored w')
  /\ Forall (fun t => ~ fetched_live quiet_world t) (stored w').
Proof.
  split; [vm_compute; reflexivity|]. split.
  - vm_compute. repeat constructor.
  - apply Forall_forall. intros t _ [url [r [o [posts [Hn _]]]]]. discriminate Hn.
Qed.








(** C7: merging the same batch a second time leaves the store as the first
    merge left it (the same tweets in the same order), and returns what the
    first merge returned. *)
Theorem saveStoredTweets_idempotent tweets w :
  let w1 := snd (saveStoredTweets tweets w) in
  let w2 := snd (saveStoredTweets tweets w1) in
  stored w2 = stored w1
  /\ fst (saveStoredTweets tweets w1) = fst (saveStoredTweets tweets w).
Proof.
  cbv zeta. rewrite !saveStoredTweets_run. cbn [snd fst].
  rewrite !after_save_stored, after_save_fault.
  destruct (write_fault w) as [[c|c]|]; [now split | now split |].
  now rewrite merged_idem.
Qed.

(** C8: for a positive [count], [getRandomStoredTweets] returns the first
    [min(count, k)] tweets of an arrangement of the [k] stored tweets: that
    many tweets, each of them stored, and none when the store is empty. *)
Theorem getRandomStoredTweets_bound count w :
  0 < count ->
  exists sample shuffled w',
    getRandomStoredTweets count w = (Return sample, w')
    /\ Permutation (stored w) shuffled
    /\ sample = firstn (Z.to_nat count) shuffled
    /\ Z.of_nat (List.length sample) = Z.min count (Z.of_nat (List.length (stored w)))
    /\ (forall t, In t sample -> In t (stored w))
    /\ (stored w = [] -> sample = [])
    /\ stored w' = stored w.
Proof.
  intros Hc.
  destruct (getRandomStoredTweets_run count w) as [shuffled [k [Hperm Hrun]]].
  pose proof (Permutation_length Hperm) as Hlen.
  rewrite Array_slice_firstn in Hrun by lia.
  assert (Hcut : firstn (Z.to_nat (Z.min count (Z.of_nat (List.length (stored w))))) shuffled
                 = firstn (Z.to_nat count) shuffled).
  { destruct (Z.le_ge_cases count (Z.of_nat (List.length (stored w)))) as [H|H].
    - now rewrite Z.min_l.
    - rewrite Z.min_r, Nat2Z.id by exact H. rewrite Hlen.
      rewrite firstn_all. symmetry. apply firstn_all2. lia. }
  rewrite Hcut in Hrun.
  eexists _, shuffled, _. split; [exact Hrun|].
  split; [exact Hperm|]. split; [reflexivity|].
  split; [|split; [|split]].
  - rewrite length_firstn. lia.
  - intros t Ht. apply In_firstn in Ht.
    exact (Permutation_in _ (Permutation_sym Hperm) Ht).
  - intros E. rewrite E in Hperm. apply Permutation_nil in Hperm. subst shuffled.
    apply firstn_nil.
  - reflexivity.
Qed.

Lemma getRandomStoredTweets_bound_witness :
  0 < 1
  /\ exists sample shuffled w',
       getRandomStoredTweets 1 (world_with [tweet_a; tweet_b]) = (Return sample, w')
       /\ Permutation (stored (world_with [tweet_a; tweet_b])) shuffled
       /\ sample = firstn (Z.to_nat 1) shuffled
       /\ Z.of_nat (List.length sample)
          = Z.min 1 (Z.of_nat (List.length (stored (world_with [tweet_a; tweet_b]))))
       /\ (forall t, In t sample -> In t (stored (world_with [tweet_a; tweet_b])))
       /\ (stored (world_with [tweet_a; tweet_b]) = [] -> sample = [])
       /\ stored w' = stored (world_with [tweet_a; tweet_b]).
Proof.
  split; [lia|].
  apply (getRandomStoredTweets_bound 1 (world_with [tweet_a; tweet_b])). lia.
Defined.

(** C9: [loadStoredTweets] never throws.  On a backing file that does not
    exist it returns the empty array and logs nothing; when reading fails
    otherwise, or the text does not parse, or parses to [null], it returns
    the empty array after logging the error. *)
Theorem loadStoredTweets_fail_soft w :
  let r := fst (loadStoredTweets w) in
  let w' := snd (loadStoredTweets w) in
  (forall e, r <> Throw e)
  /\ (files w TWEETS_DB_FILE = Unreadable "ENOENT" ->
      r = Return [] /\ console w' = console w)
  /\ (forall code, files w TWEETS_DB_FILE = Unreadable code -> code <> "ENOENT" ->
      r = Return []
      /\ console w' = console w ++ [ConsoleError loading_error (Some (FsError code))])
  /\ (files w TWEETS_DB_FILE = Contents Malformed ->
      r = Return []
      /\ console w' = console w ++ [ConsoleError loading_error (Some SyntaxError)])
  /\ (files w TWEETS_DB_FILE = Contents (Encodes None) ->
      r = Return []
      /\ console w' = console w ++ [ConsoleError loading_error (Some TypeError)]).
Proof.
  cbv zeta. rewrite loadStoredTweets_run. cbn [fst snd].
  unfold stored, after_load, load_report.
  split; [discriminate|].
  split; [|split; [|split]].
  - intros ->. simpl. now rewrite app_nil_r.
  - intros code -> Hne. apply String.eqb_neq in Hne. now rewrite Hne.
  - now intros ->.
  - now intros ->.
Qed.

Lemma loadStoredTweets_fail_soft_witness :
  files quiet_world TWEETS_DB_FILE = Unreadable "ENOENT"
  /\ fst (loadStoredTweets quiet_world) = Return []
  /\ console (snd (loadStoredTweets quiet_world)) = console quiet_world.
Proof.
  split; [reflexivity|].
  exact (proj1 (proj2 (loadStoredTweets_fail_soft quiet_world)) eq_refl).
Defined.

(* ================================================================= *)
(** ** The route *)

Lemma getTwitterBearerToken_run w :
  exists token w', getTwitterBearerToken w = (Return token, w') /\ same_env w w'.
Proof.
  unfold getTwitterBearerToken, bind at 1, get_twitterBearerToken at 1.
  destruct (truthy (twitterBearerToken w)).
  - eexists _, _. split; [reflexivity | repeat split].
  - unfold try_catch, bind at 1, fetch.
    destruct (network w "https://api.twitter.com/oauth2/token") as [r|].
    + unfold bind at 1, response_json.
      destruct (json r) as [| |o|raw]; unfold throw, ret, prop_access_token, bind at 1;
        try (eexists _, _; split; [reflexivity | repeat split]).
      unfold ret. destruct (truthy (access_token o));
        eexists _, _; (split; [reflexivity | repeat split]).
    + eexists _, _. split; [reflexivity | repeat split].
Qed.

Lemma getMockTweets_run w : getMockTweets w = (Return (placeholder w), w).
Proof. reflexivity. Qed.

Lemma placeholder_now w w' : now w' = now w -> placeholder w' = placeholder w.
Proof. unfold placeholder, getMockTweets, bind, Date_now, ret. simpl. now intros ->. Qed.

Lemma stored_files w w' : files w' = files w -> stored w' = stored w.
Proof. unfold stored. now intros ->. Qed.

Lemma sample_ten w :
  exists sample w',
    getRandomStoredTweets 10 w = (Return sample, w')
    /\ now w' = now w /\ files w' = files w
    /\ (forall t, In t sample -> In t (stored w))
    /\ (nonempty sample = true -> sample <> [])
    /\ (nonempty sample = false -> stored w = []).
Proof.
  destruct (getRandomStoredTweets_run 10 w) as [shuffled [k [Hperm Hrun]]].
  eexists _, _. split; [exact Hrun|].
  split; [reflexivity|]. split; [reflexivity|].
  assert (Hmin : 0 <= Z.min 10 (Z.of_nat (List.length (stored w)))) by lia.
  rewrite Array_slice_firstn by exact Hmin.
  split; [|split].
  - intros t Ht. apply In_firstn in Ht.
    exact (Permutation_in _ (Permutation_sym Hperm) Ht).
  - intros H E. rewrite E in H. discriminate H.
  - unfold nonempty. intros H. apply Nat.ltb_ge in H.
    rewrite length_firstn, <- (Permutation_length Hperm) in H.
    destruct (stored w); [reflexivity|]. simpl List.length in H. lia.
Qed.

(** Runs the sampler where the goal calls it, from a world with the files
    and the clock of [w], and splits on whether the sample is empty. *)
Ltac sample_step w Hf1 Hnow1 :=
  match goal with
  | |- context [getRandomStoredTweets 10 ?w0] =>
      let sample := fresh "sample" in
      let ws := fresh "ws" in
      let Hrun := fresh "Hrun" in
      let Hnow := fresh "Hnow" in
      let Hfiles := fresh "Hfiles" in
      let Hin := fresh "Hin" in
      let Hne := fresh "Hne" in
      let Hempty := fresh "Hempty" in
      let Hs := fresh "Hs" in
      let En := fresh "En" in
      destruct (sample_ten w0) as [sample [ws [Hrun [Hnow [Hfiles [Hin [Hne Hempty]]]]]]];
      rewrite Hrun; clear Hrun;
      assert (Hs : stored w0 = stored w) by (apply stored_files; exact Hf1);
      rewrite Hs in Hin, Hempty; clear Hs;
      cbn [now with_console] in Hnow; rewrite Hnow1 in Hnow;
      cbv beta iota;
      destruct (nonempty sample) eqn:En; cbv beta iota;
      [specialize (Hne eq_refl); clear Hempty | specialize (Hempty eq_refl); clear Hne]
  end.

Ltac cache_answer :=
  split; [reflexivity|];
  eexists; split; [reflexivity|]; split; assumption.

Ltac placeholder_answer :=
  split; [assumption|]; split; [reflexivity|];
  cbn [payload]; f_equal; apply placeholder_now; assumption.

(** A non-empty sample of an empty store: there is none. *)
Ltac no_sample :=
  match goal with
  | Hne : ?s <> [], Hin : (forall t, In t ?s -> In t (stored _)), He : stored _ = [] |- _ =>
      exfalso; destruct s as [|t0 s0];
      [now apply Hne
      | specialize (Hin t0 (or_introl eq_refl)); rewrite He in Hin; exact Hin]
  end.

Ltac answer :=
  eexists _, _; split; [reflexivity|];
  split; [first [left; reflexivity | right; repeat split; assumption]|];
  split;
  [ let Hno := fresh "Hno" in
    let He := fresh "He" in
    intros Hno He; first [discriminate Hno | split; reflexivity | no_sample]
  | split; intros;
    first [discriminate | congruence | cache_answer
          | left; cache_answer | right; placeholder_answer] ].

(** C1, as amended: the route always answers, and never throws.  The answer
    has status 200 except in one case: with no token and an empty store it
    is status 500 with the error [Failed to authenticate with Twitter], and
    in no other case.  With no token and a non-empty store it is a non-empty
    sample of the store marked [isStoredData]; with a token and a live fetch
    that fails it is such a sample or, on an empty store, the placeholder
    set. *)
Theorem twitter_search_answer req w :
  exists r w',
    twitter_search req w = (Return r, w')
    /\ (statusCode r = 200
        \/ (statusCode r = 500 /\ payload r = ErrorJson auth_failure
            /\ truthy (token_at w) = false /\ stored w = []))
    /\ (truthy (token_at w) = false -> stored w = [] ->
        statusCode r = 500 /\ payload r = ErrorJson auth_failure)
    /\ (truthy (token_at w) = false -> stored w <> [] -> from_cache w r)
    /\ (truthy (token_at w) = true -> live_failed req w = true ->
        from_cache w r \/ from_placeholder w r).
Proof.
  destruct (getTwitterBearerToken_run w) as [tok [w1 [Htok Henv]]].
  assert (Htoken : token_at w = tok) by (unfold token_at; now rewrite Htok).
  destruct Henv as [Hf1 [_ [_ [Hn1 [Hnow1 _]]]]].
  unfold twitter_search, live_failed. rewrite Htoken.
  cbv beta iota delta [bind try_catch]. rewrite Htok.
  destruct (truthy tok) eqn:Et; cbv beta iota delta [negb].
  - cbv beta iota delta [console_log fetch].
    cbn [network with_console]. rewrite Hn1.
    destruct (network w (twitterUrl req)) as [resp|].
    + destruct (ok resp); cbv beta iota delta [orb negb].
      * unfold response_json.
        destruct (json resp) as [| |o|raw];
          cbv beta iota delta [throw ret prop_data console_error].
        -- sample_step w Hf1 Hnow1; [answer|].
           rewrite getMockTweets_run. answer.
        -- sample_step w Hf1 Hnow1; [answer|].
           rewrite getMockTweets_run. answer.
        -- destruct (nonempty (or_empty (data o))).
           ++ rewrite saveStoredTweets_run. answer.
           ++ answer.
        -- change (nonempty (@or_empty Tweet None)) with false. cbv iota. answer.
      * unfold response_text. destruct (body_text resp) as [txt|];
          cbv beta iota delta [throw ret console_error].
        -- sample_step w Hf1 Hnow1; [answer|].
           rewrite getMockTweets_run. answer.
        -- sample_step w Hf1 Hnow1; [answer|].
           rewrite getMockTweets_run. answer.
    + cbv beta iota delta [console_error].
      sample_step w Hf1 Hnow1; [answer|].
      rewrite getMockTweets_run. answer.
  - cbv beta iota delta [console_log].
    sample_step w Hf1 Hnow1; [answer|].
    unfold res_status_json. answer.
Qed.

Lemma twitter_search_answer_witness :
  truthy (token_at (world_with [tweet_a])) = false
  /\ stored (world_with [tweet_a]) <> []
  /\ (exists r w',
        twitter_search plain_request (world_with [tweet_a]) = (Return r, w')
        /\ from_cache (world_with [tweet_a]) r)
  /\ truthy (token_at quiet_world) = false
  /\ stored quiet_world = []
  /\ (exists r w',
        twitter_search plain_request quiet_world = (Return r, w')
        /\ statusCode r = 500 /\ payload r = ErrorJson auth_failure).
Proof.
  split; [reflexivity|]. split; [discriminate|]. split.
  - destruct (twitter_search_answer plain_request (world_with [tweet_a]))
      as [r [w' [Hrun [_ [_ [Hcache _]]]]]].
    exists r, w'. split; [exact Hrun|].
    apply Hcache; [reflexivity | discriminate].
  - split; [reflexivity|]. split; [reflexivity|].
    destruct (twitter_search_answer plain_request quiet_world)
      as [r [w' [Hrun [_ [Hfail _]]]]].
    exists r, w'. split; [exact Hrun|].
    apply Hfail; reflexivity.
Defined.

(** C1, as stated, fails: with no token to be had and an empty store the
    route answers with status 500 and an error body. *)
Lemma twitter_search_no_token_empty_store :
  truthy (token_at quiet_world) = false
  /\ stored quiet_world = []
  /\ fst (twitter_search plain_request quiet_world)
     = Return {| statusCode := 500; payload := ErrorJson auth_failure |}.
Proof. repeat split. Qed.

(** C10: with a token, when the upstream answers with a success whose body
    has no [data] or an empty one, the route answers 200 with that body
    unchanged; it makes no call to [fs] (nothing is merged, no sample is
    read), draws no random number and leaves every file as it was. *)
Theorem twitter_search_empty_payload req w response o :
  truthy (token_at w) = true ->
  network w (twitterUrl req) = Some response ->
  ok response = true ->
  json response = JsonObj o ->
  data o = None \/ data o = Some [] ->
  exists w',
    twitter_search req w
    = (Return {| statusCode := 200; payload := PassThrough (JsonObj o) |}, w')
    /\ files w' = files w
    /\ fs_calls w' = fs_calls w
    /\ random_calls w' = random_calls w.
Proof.
  intros Htrue Hnet Hok Hjson Hdata.
  destruct (getTwitterBearerToken_run w) as [tok [w1 [Htok Henv]]].
  assert (Htoken : token_at w = tok) by (unfold token_at; now rewrite Htok).
  destruct Henv as [Hf1 [_ [Hc1 [Hn1 [_ Hrc]]]]].
  rewrite Htoken in Htrue.
  unfold twitter_search.
  cbv beta iota delta [bind try_catch]. rewrite Htok, Htrue.
  cbv beta iota delta [negb console_log fetch].
  cbn [network with_console]. rewrite Hn1, Hnet, Hok.
  cbv beta iota delta [negb]. unfold response_json. rewrite Hjson.
  cbv beta iota delta [ret prop_data].
  assert (He : nonempty (or_empty (data o)) = false)
    by (destruct Hdata as [-> | ->]; reflexivity).
  rewrite He. eexists. split; [reflexivity|].
  repeat split; assumption.
Qed.

Lemma twitter_search_empty_payload_witness :
  exists w',
    twitter_search plain_request (answering_world (Some []))
    = (Return {| statusCode := 200;
                 payload := PassThrough
                              (JsonObj {| access_token := None; data := Some [];
                                          includes := None |}) |}, w')
    /\ files w' = files (answering_world (Some []))
    /\ fs_calls w' = fs_calls (answering_world (Some []))
    /\ random_calls w' = random_calls (answering_world (Some [])).
Proof.
  apply (twitter_search_empty_payload plain_request (answering_world (Some []))
           {| ok := true; status := 200; body_text := Some "{}";
              json := JsonObj {| access_token := None; data := Some [];
                                 includes := None |} |}).
  - reflexivity.
  - reflexivity.
  - reflexivity.
  - reflexivity.
  - right. reflexivity.
Defined.

(* ================================================================= *)
(** ** Further properties of the store *)

Lemma NoDup_map_firstn {A B} (f : A -> B) n (l : list A) :
  NoDup (map f l) -> NoDup (map f (firstn n l)).
Proof.
  intros H. rewrite <- (firstn_skipn n l), map_app in H.
  exact (NoDup_app_remove_r _ _ H).
Qed.

Lemma NoDup_map_skipn {A B} (f : A -> B) n (l : list A) :
  NoDup (map f l) -> NoDup (map f (skipn n l)).
Proof.
  intros H. rewrite <- (firstn_skipn n l), map_app in H.
  exact (NoDup_app_remove_l _ _ H).
Qed.

Lemma In_skipn {A} (x : A) n l : In x (skipn n l) -> In x l.
Proof.
  intros H. rewrite <- (firstn_skipn n l). apply in_or_app. now right.
Qed.

Lemma merged_ids_NoDup e b : NoDup (ids (merged e b)).
Proof. rewrite merged_firstn. unfold combined. apply r1_NoDup. Qed.

Lemma combined_NoDup e b : NoDup (ids (combined e b)).
Proof.
  unfold combined. rewrite keyed_ids.
  - apply set_all_NoDup, set_all_NoDup. constructor.
  - apply set_all_keyed, set_all_keyed. constructor.
Qed.

Lemma combined_get e b t :
  In t (combined e b) ->
  Map_get (id t) (set_all (filter is_real b) (set_all e [])) = Some t.
Proof.
  apply keyed_value_get.
  - apply set_all_keyed, set_all_keyed. constructor.
  - apply set_all_NoDup, set_all_NoDup. constructor.
Qed.


Lemma last_with_Some k ts : In k (ids ts) -> exists t, last_with k ts = Some t.
Proof.
  intros H. destruct (last_with k ts) as [t|] eqn:E; [now exists t|].
  now apply last_with_None in E.
Qed.

Lemma In_keys_get {V} k (m : JsMap V) : In k (Map_keys m) <-> exists v, Map_get k m = Some v.
Proof.
  split.
  - induction m as [|[k' v'] m IH]; simpl; [tauto|].
    destruct (String.eqb_spec k' k) as [->|Hne]; [now exists v'|].
    intros [H|H]; [contradiction | now apply IH].
  - intros [v H]. apply Map_get_Some in H. apply (in_map fst) in H. exact H.
Qed.

Lemma combined_ids e b k :
  In k (ids (combined e b)) <-> In k (ids e) \/ In k (ids (filter is_real b)).
Proof.
  unfold combined. rewrite keyed_ids by (apply set_all_keyed, set_all_keyed; constructor).
  rewrite In_keys_get. split.
  - intros [v H]. rewrite set_all_get in H.
    destruct (last_with k (filter is_real b)) as [x|] eqn:E.
    + right. apply last_with_In in E. destruct E as [Hin <-]. unfold ids. now apply in_map.
    + rewrite set_all_get in H. destruct (last_with k e) as [x|] eqn:E'; [|discriminate].
      left. apply last_with_In in E'. destruct E' as [Hin <-]. unfold ids. now apply in_map.
  - intros [H|H]; rewrite set_all_get.
    + destruct (last_with k (filter is_real b)) as [x|]; [now exists x|].
      rewrite set_all_get. apply last_with_Some in H. destruct H as [t ->]. now exists t.
    + apply last_with_Some in H. destruct H as [t ->]. now exists t.
Qed.

(** A store in the form a merge writes is left as it is by a batch that
    holds no unflagged tweet. *)
Lemma merged_normal r b :
  StronglySorted newer_eq r -> NoDup (ids r) -> (List.length r <= cap)%nat ->
  filter is_real b = [] -> merged r b = r.
Proof.
  intros Hs Hnd Hlen Hb. rewrite merged_firstn. unfold combined. rewrite Hb.
  change (set_all [] (set_all r [])) with (set_all r []).
  rewrite set_all_distinct by exact Hnd. simpl app. rewrite entries_values.
  rewrite sort_desc_fixed by exact Hs. now apply firstn_all2.
Qed.

Lemma merged_cap e b : (List.length (merged e b) <= cap)%nat.
Proof. rewrite merged_firstn. apply firstn_le_length. Qed.

(** X1: after a merge whose write is accepted (or on a store that had none
    before) no two stored tweets share an id. *)
Theorem stored_ids_distinct tweets w :
  write_fault w = None \/ NoDup (ids (stored w)) ->
  NoDup (ids (stored (snd (saveStoredTweets tweets w)))).
Proof.
  rewrite saveStoredTweets_run. cbn [snd]. rewrite after_save_stored.
  destruct (write_fault w) as [[c|c]|]; [|intros _; constructor|intros _; apply merged_ids_NoDup].
  intros [H|H]; [discriminate | exact H].
Qed.

Lemma stored_ids_distinct_witness :
  (write_fault (world_with [tweet_a; tweet_a]) = None
   \/ NoDup (ids (stored (world_with [tweet_a; tweet_a]))))
  /\ NoDup (ids (stored (snd (saveStoredTweets [tweet_b; tweet_b]
                                (world_with [tweet_a; tweet_a]))))).
Proof.
  assert (H : write_fault (world_with [tweet_a; tweet_a]) = None
              \/ NoDup (ids (stored (world_with [tweet_a; tweet_a]))))
    by (left; reflexivity).
  split; [exact H|].
  exact (stored_ids_distinct [tweet_b; tweet_b] (world_with [tweet_a; tweet_a]) H).
Defined.



(** X3: below the cap nothing is lost.  When the stored tweets and the
    unflagged tweets of the batch have at most 100 ids between them, the
    store after the merge holds exactly these ids, one tweet for each. *)
Theorem merge_keeps_all_below_cap tweets w :
  write_fault w = None ->
  (List.length (combined (stored w) tweets) <= 100)%nat ->
  let after := stored (snd (saveStoredTweets tweets w)) in
  Permutation (combined (stored w) tweets) after
  /\ forall k, In k (ids after)
               <-> In k (ids (stored w)) \/ In k (ids (filter is_real tweets)).
Proof.
  intros Hok Hlen. cbv zeta. rewrite saveStoredTweets_run. cbn [snd].
  rewrite after_save_stored, Hok.
  assert (Hm : merged (stored w) tweets = sort_desc (combined (stored w) tweets)).
  { rewrite merged_firstn. apply firstn_all2.
    rewrite <- (Permutation_length (sort_desc_perm _)), cap_100. exact Hlen. }
  rewrite Hm. split; [apply sort_desc_perm|].
  intros k. rewrite <- combined_ids. unfold ids.
  split; apply Permutation_in, Permutation_map;
    [apply Permutation_sym|]; apply sort_desc_perm.
Qed.

Lemma merge_keeps_all_below_cap_witness :
  write_fault (world_with [tweet_a]) = None
  /\ (List.length (combined (stored (world_with [tweet_a])) [tweet_b]) <= 100)%nat
  /\ Permutation (combined (stored (world_with [tweet_a])) [tweet_b])
       (stored (snd (saveStoredTweets [tweet_b] (world_with [tweet_a])))).
Proof.
  assert (H : (List.length (combined (stored (world_with [tweet_a])) [tweet_b]) <= 100)%nat)
    by (vm_compute; repeat constructor).
  split; [reflexivity|]. split; [exact H|].
  exact (proj1 (merge_keeps_all_below_cap [tweet_b] (world_with [tweet_a]) eq_refl H)).
Defined.

(** X4: what a merge wrote is what the next load reads.  After a merge whose
    write is accepted, [loadStoredTweets] returns the array the merge
    returned. *)
Theorem save_then_load tweets w :
  write_fault w = None ->
  fst (loadStoredTweets (snd (saveStoredTweets tweets w)))
  = fst (saveStoredTweets tweets w).
Proof.
  intros Hok. rewrite loadStoredTweets_run, saveStoredTweets_run. cbn [fst snd].
  now rewrite after_save_stored, Hok.
Qed.

Lemma save_then_load_witness :
  write_fault (world_with [tweet_a]) = None
  /\ fst (loadStoredTweets (snd (saveStoredTweets [tweet_b] (world_with [tweet_a]))))
     = fst (saveStoredTweets [tweet_b] (world_with [tweet_a])).
Proof.
  split; [reflexivity|].
  exact (save_then_load [tweet_b] (world_with [tweet_a]) eq_refl).
Defined.

(** X5: on a store that a merge left, a batch in which every tweet is
    flagged ([isMockData], or an id starting with [mock_] or
    [client_mock_]) changes nothing. *)
Theorem flagged_batch_inert earlier tweets w :
  Forall (fun t => is_real t = false) tweets ->
  let w1 := snd (saveStoredTweets earlier w) in
  stored (snd (saveStoredTweets tweets w1)) = stored w1.
Proof.
  intros Hall. cbv zeta. rewrite !saveStoredTweets_run. cbn [snd].
  rewrite !after_save_stored, after_save_fault.
  destruct (write_fault w) as [[c|c]|]; [reflexivity | reflexivity |].
  apply merged_normal.
  - apply merged_sorted.
  - apply merged_ids_NoDup.
  - apply merged_cap.
  - induction Hall as [|t ts Ht _ IH]; [reflexivity|]. simpl. now rewrite Ht.
Qed.

Lemma flagged_batch_inert_witness :
  Forall (fun t => is_real t = false) (placeholder quiet_world)
  /\ stored (snd (saveStoredTweets (placeholder quiet_world)
                    (snd (saveStoredTweets [tweet_a] quiet_world))))
     = stored (snd (saveStoredTweets [tweet_a] quiet_world)).
Proof.
  assert (H : Forall (fun t => is_real t = false) (placeholder quiet_world))
    by (vm_compute; repeat constructor).
  split; [exact H|].
  exact (flagged_batch_inert [tweet_a] (placeholder quiet_world) quiet_world H).
Defined.

(** X6: a tweet that is unflagged, the last of the batch under its id and
    strictly newer than every other tweet stored or in the batch stands
    first in the store after the merge. *)
Theorem newest_tweet_first tweets w t :
  write_fault w = None ->
  last_with (id t) (filter is_real tweets) = Some t ->
  (forall x, In x (stored w) \/ In x tweets -> x <> t -> created_at x < created_at t) ->
  hd_error (stored (snd (saveStoredTweets tweets w))) = Some t.
Proof.
  intros Hok Hlast Hnew. rewrite saveStoredTweets_run. cbn [snd].
  rewrite after_save_stored, Hok, merged_firstn.
  assert (Hin : In t (combined (stored w) tweets)).
  { unfold combined.
    assert (Hg : Map_get (id t) (set_all (filter is_real tweets) (set_all (stored w) []))
                 = Some t) by now rewrite set_all_get, Hlast.
    apply Map_get_Some in Hg. apply (in_map snd) in Hg. exact Hg. }
  assert (Hothers : forall x, In x (combined (stored w) tweets) -> x <> t ->
                              created_at x < created_at t).
  { intros x Hx. apply Hnew. unfold combined in Hx.
    apply In_values_set_all in Hx. destruct Hx as [Hx|Hx].
    - right. now apply filter_In in Hx.
    - apply In_values_set_all in Hx. destruct Hx as [Hx|[]]. now left. }
  pose proof (sort_desc_sorted (combined (stored w) tweets)) as Hs.
  pose proof (sort_desc_perm (combined (stored w) tweets)) as Hp.
  destruct (sort_desc (combined (stored w) tweets)) as [|h rest].
  - apply Permutation_sym, Permutation_nil in Hp. rewrite Hp in Hin. destruct Hin.
  - rewrite cap_100. simpl. f_equal.
    assert (Hh : In h (combined (stored w) tweets))
      by (apply (Permutation_in _ (Permutation_sym Hp)); now left).
    apply (Permutation_in _ Hp) in Hin. destruct Hin as [Heq|Hin]; [exact Heq|].
    inversion Hs as [|? ? _ Hall]; subst. rewrite Forall_forall in Hall.
    specialize (Hall _ Hin). unfold newer_eq in Hall.
    destruct (string_dec (id h) (id t)) as [Hid|Hid].
    + apply combined_get in Hh. rewrite Hid, set_all_get, Hlast in Hh. congruence.
    + assert (Hne : h <> t) by (intros ->; now apply Hid).
      specialize (Hothers h Hh Hne). lia.
Qed.

Lemma newest_tweet_first_witness :
  hd_error (stored (snd (saveStoredTweets [tweet_b] (world_with [tweet_a])))) = Some tweet_b.
Proof.
  apply (newest_tweet_first [tweet_b] (world_with [tweet_a]) tweet_b).
  - reflexivity.
  - reflexivity.
  - intros x [[<-|[]]|[<-|[]]] Hne.
    + vm_compute. reflexivity.
    + now contradiction Hne.
Defined.

(** *** The sampler *)

Lemma Array_slice_NoDup {A B} (f : A -> B) start stop (l : list A) :
  NoDup (map f l) -> NoDup (map f (Array_slice start stop l)).
Proof. intros H. unfold Array_slice. now apply NoDup_map_firstn, NoDup_map_skipn. Qed.

(** X7: a sample never holds a stored tweet twice.  When the stored tweets
    have distinct ids, so have the tweets [getRandomStoredTweets] returns,
    whatever [count] and the random numbers are. *)
Theorem sample_without_repeats count w sample :
  NoDup (ids (stored w)) ->
  fst (getRandomStoredTweets count w) = Return sample ->
  NoDup (ids sample).
Proof.
  intros Hnd. destruct (getRandomStoredTweets_run count w) as [shuffled [k [Hperm Hrun]]].
  rewrite Hrun. cbn [fst]. intros [= <-].
  apply Array_slice_NoDup.
  exact (Permutation_NoDup (Permutation_map id Hperm) Hnd).
Qed.

Lemma sample_without_repeats_witness :
  NoDup (ids (stored (world_with [tweet_a; tweet_b])))
  /\ NoDup (ids [tweet_a; tweet_b]).
Proof.
  assert (H : NoDup (ids (stored (world_with [tweet_a; tweet_b])))).
  { vm_compute. repeat constructor; simpl; intuition discriminate. }
  split; [exact H|].
  apply (sample_without_repeats 10 (world_with [tweet_a; tweet_b]) [tweet_a; tweet_b] H).
  vm_compute. reflexivity.
Defined.

(** X8: a negative [count] is counted from the end.  [getRandomStoredTweets]
    then returns all but the last [-count] tweets of the shuffled store:
    [max(k + count, 0)] tweets of a store of [k]; a [count] of zero gives
    none. *)
Theorem sample_count_from_the_end count w :
  count <= 0 ->
  exists sample shuffled w',
    getRandomStoredTweets count w = (Return sample, w')
    /\ Permutation (stored w) shuffled
    /\ (count = 0 -> sample = [])
    /\ (count < 0 ->
        sample = firstn (Z.to_nat (Z.of_nat (List.length (stored w)) + count)) shuffled
        /\ Z.of_nat (List.length sample)
           = Z.max (Z.of_nat (List.length (stored w)) + count) 0).
Proof.
  intros Hc. destruct (getRandomStoredTweets_run count w) as [shuffled [k [Hperm Hrun]]].
  eexists _, shuffled, _. split; [exact Hrun|]. split; [exact Hperm|].
  pose proof (Permutation_length Hperm) as Hlen.
  rewrite Z.min_l by lia. split.
  - intros ->. now rewrite Array_slice_firstn.
  - intros Hneg. unfold Array_slice.
    replace (0 <? 0) with false by reflexivity.
    replace (count <? 0) with true by (symmetry; now apply Z.ltb_lt).
    rewrite (Z.min_l 0) by lia. simpl skipn. rewrite Z.sub_0_r, <- Hlen.
    assert (Hn : Z.to_nat (Z.max (Z.of_nat (List.length (stored w)) + count) 0)
                 = Z.to_nat (Z.of_nat (List.length (stored w)) + count)) by lia.
    rewrite Hn. split; [reflexivity|].
    rewrite length_firstn. lia.
Qed.

Lemma sample_count_from_the_end_witness :
  -1 <= 0
  /\ fst (getRandomStoredTweets (-1) (world_with [tweet_a; tweet_b])) = Return [tweet_a]
  /\ exists sample shuffled w',
       getRandomStoredTweets (-1) (world_with [tweet_a; tweet_b]) = (Return sample, w')
       /\ Permutation (stored (world_with [tweet_a; tweet_b])) shuffled
       /\ (-1 = 0 -> sample = [])
       /\ (-1 < 0 ->
           sample = firstn (Z.to_nat (Z.of_nat (List.length
                                        (stored (world_with [tweet_a; tweet_b]))) + -1))
                      shuffled
           /\ Z.of_nat (List.length sample)
              = Z.max (Z.of_nat (List.length (stored (world_with [tweet_a; tweet_b]))) + -1) 0).
Proof.
  split; [lia|]. split; [vm_compute; reflexivity|].
  apply (sample_count_from_the_end (-1) (world_with [tweet_a; tweet_b])). lia.
Defined.

(** X21: a store no larger than [count] is returned whole.  When the store
    holds at most [count] tweets, [getRandomStoredTweets] returns all of
    them, each as often as it is stored, in some order. *)
Theorem sample_is_whole_store count w :
  Z.of_nat (List.length (stored w)) <= count ->
  exists sample w',
    getRandomStoredTweets count w = (Return sample, w')
    /\ Permutation (stored w) sample.
Proof.
  intros Hc. destruct (getRandomStoredTweets_run count w) as [shuffled [k [Hperm Hrun]]].
  eexists _, _. split; [exact Hrun|].
  rewrite Z.min_r by exact Hc. rewrite Array_slice_firstn by lia.
  rewrite Nat2Z.id, (Permutation_length Hperm), firstn_all. exact Hperm.
Qed.

Lemma sample_is_whole_store_witness :
  Z.of_nat (List.length (stored (world_with [tweet_a; tweet_b; tweet_c]))) <= 10
  /\ exists sample w',
       getRandomStoredTweets 10 (world_with [tweet_a; tweet_b; tweet_c]) = (Return sample, w')
       /\ Permutation (stored (world_with [tweet_a; tweet_b; tweet_c])) sample.
Proof.
  assert (H : Z.of_nat (List.length (stored (world_with [tweet_a; tweet_b; tweet_c]))) <= 10)
    by (vm_compute; discriminate).
  split; [exact H|].
  exact (sample_is_whole_store 10 (world_with [tweet_a; tweet_b; tweet_c]) H).
Defined.

(** *** Seeding at start-up *)


(** X9: start-up seeds an empty store once.  With a disk that accepts the
    write, [initializeSampleTweets] turns an empty store into the five
    sample tweets, in the order of the source; a store that holds a tweet is
    left as it is, and so a second run changes nothing. *)
Theorem initializeSampleTweets_seeds_once w :
  write_fault w = None ->
  let w1 := snd (initializeSampleTweets w) in
  (stored w = [] -> stored w1 = seed w /\ List.length (stored w1) = 5%nat)
  /\ (stored w <> [] -> stored w1 = stored w)
  /\ stored (snd (initializeSampleTweets w1)) = stored w1.
Proof.
  intros Hok. cbv zeta. rewrite !initializeSampleTweets_stored, Hok.
  split; [|split].
  - intros ->. split; reflexivity.
  - destruct (stored w); [congruence | reflexivity].
  - destruct (stored w) as [|t ts].
    + reflexivity.
    + reflexivity.
Qed.

Lemma initializeSampleTweets_seeds_once_witness :
  write_fault quiet_world = None
  /\ stored quiet_world = []
  /\ stored (snd (initializeSampleTweets quiet_world)) = seed quiet_world
  /\ stored (snd (initializeSampleTweets (snd (initializeSampleTweets quiet_world))))
     = stored (snd (initializeSampleTweets quiet_world)).
Proof.
  destruct (initializeSampleTweets_seeds_once quiet_world eq_refl) as [H1 [_ H3]].
  split; [reflexivity|]. split; [reflexivity|].
  split; [exact (proj1 (H1 eq_refl)) | exact H3].
Defined.

(* ================================================================= *)
(** ** Further properties of the bearer token *)

(** X10: a granted token is kept.  When no token is set and the token
    endpoint answers with an [access_token], [getTwitterBearerToken] returns
    it and stores it in the global, and the next call returns it again
    whatever the network then answers. *)
Theorem token_kept_after_grant w r o :
  truthy (twitterBearerToken w) = false ->
  network w oauth_url = Some r ->
  json r = JsonObj o ->
  truthy (access_token o) = true ->
  let w1 := snd (getTwitterBearerToken w) in
  fst (getTwitterBearerToken w) = Return (access_token o)
  /\ twitterBearerToken w1 = access_token o
  /\ forall net, fst (getTwitterBearerToken (with_network net w1)) = Return (access_token o).
Proof.
  intros Hno Hnet Hjson Hgrant. cbv zeta.
  assert (Hrun : getTwitterBearerToken w
                 = (Return (access_token o),
                    with_console (console w ++ [ConsoleLog "Twitter Bearer token obtained successfully"])
                      (with_token (access_token o) w))).
  { unfold getTwitterBearerToken, bind at 1, get_twitterBearerToken at 1. rewrite Hno.
    unfold try_catch, bind at 1, fetch. fold oauth_url. rewrite Hnet.
    unfold bind at 1, response_json. rewrite Hjson.
    unfold ret, prop_access_token, bind at 1. unfold ret. rewrite Hgrant. reflexivity. }
  rewrite Hrun. cbn [fst snd]. split; [reflexivity|]. split; [reflexivity|].
  intros net. unfold getTwitterBearerToken, bind at 1, get_twitterBearerToken at 1.
  cbn [twitterBearerToken with_network with_console with_token]. rewrite Hgrant. reflexivity.
Qed.

Lemma token_kept_after_grant_witness :
  fst (getTwitterBearerToken granting_world) = Return (Some "AAAA")
  /\ forall net,
       fst (getTwitterBearerToken (with_network net (snd (getTwitterBearerToken granting_world))))
       = Return (Some "AAAA").
Proof.
  destruct (token_kept_after_grant granting_world
              (json_answer (JsonObj {| access_token := Some "AAAA"; data := None;
                                       includes := None |}))
              {| access_token := Some "AAAA"; data := None; includes := None |}
              eq_refl eq_refl eq_refl eq_refl) as [H1 [_ H3]].
  split; [exact H1 | exact H3].
Defined.

(** X11: a refused token is not remembered.  When no token is set and the
    token endpoint does not grant one (the fetch rejects, the body is not a
    JSON object, or it has no [access_token]), [getTwitterBearerToken]
    returns [process.env.TWITTER_BEARER_TOKEN], logs one error and leaves
    the global unset, so the next call asks the endpoint again. *)
Theorem token_fallback_to_env w :
  truthy (twitterBearerToken w) = false ->
  oauth_grants w = false ->
  let w1 := snd (getTwitterBearerToken w) in
  fst (getTwitterBearerToken w) = Return (env_TWITTER_BEARER_TOKEN w)
  /\ twitterBearerToken w1 = twitterBearerToken w
  /\ (exists msg cause, console w1 = console w ++ [ConsoleError msg cause])
  /\ forall net, oauth_grants (with_network net w1) = true ->
       exists token, fst (getTwitterBearerToken (with_network net w1)) = Return token
                     /\ truthy token = true.
Proof.
  intros Hno Hrefused. cbv zeta.
  assert (Hrun : exists msg cause,
             getTwitterBearerToken w
             = (Return (env_TWITTER_BEARER_TOKEN w),
                with_console (console w ++ [ConsoleError msg cause]) w)).
  { unfold oauth_grants in Hrefused.
    unfold getTwitterBearerToken, bind at 1, get_twitterBearerToken at 1. rewrite Hno.
    unfold try_catch, bind at 1, fetch. fold oauth_url.
    destruct (network w oauth_url) as [r|]; [|eexists _, _; reflexivity].
    unfold bind at 1, response_json.
    destruct (json r) as [| |o|raw]; unfold throw, ret, prop_access_token, bind at 1;
      try (eexists _, _; reflexivity).
    unfold ret. rewrite Hrefused. eexists _, _. reflexivity. }
  destruct Hrun as [msg [cause Hrun]]. rewrite Hrun. cbn [fst snd].
  split; [reflexivity|]. split; [reflexivity|]. split; [now exists msg, cause|].
  intros net Hgrant. unfold oauth_grants in Hgrant.
  cbn [network with_network with_console] in Hgrant.
  unfold getTwitterBearerToken, bind at 1, get_twitterBearerToken at 1.
  cbn [twitterBearerToken with_network with_console]. rewrite Hno.
  unfold try_catch, bind at 1, fetch. fold oauth_url.
  cbn [network with_network with_console].
  destruct (net oauth_url) as [r|]; [|discriminate].
  unfold bind at 1, response_json.
  destruct (json r) as [| |o|raw]; try discriminate.
  unfold ret, prop_access_token, bind at 1. unfold ret. rewrite Hgrant.
  exists (access_token o). split; [reflexivity | exact Hgrant].
Qed.

Lemma token_fallback_to_env_witness :
  truthy (twitterBearerToken quiet_world) = false
  /\ oauth_grants quiet_world = false
  /\ fst (getTwitterBearerToken quiet_world) = Return None
  /\ twitterBearerToken (snd (getTwitterBearerToken quiet_world)) = None.
Proof.
  destruct (token_fallback_to_env quiet_world eq_refl eq_refl) as [H1 [H2 _]].
  split; [reflexivity|]. split; [reflexivity|]. split; [exact H1 | exact H2].
Defined.

(* ================================================================= *)
(** ** Further properties of the route *)

Lemma last_user_cons k u us :
  last_user k (u :: us) = match last_user k us with
                          | Some x => Some x
                          | None => if String.eqb (user_key u) k then Some u else None
                          end.
Proof.
  unfold last_user. simpl rev.
  apply (find_snoc (fun x => String.eqb (user_key x) k)).
Qed.

Lemma userMap_own k us m :
  k <> "__proto__" ->
  Map_get k (own (fold_left set_user us m))
  = match last_user k us with
    | Some u => Some u
    | None => Map_get k (own m)
    end.
Proof.
  intros Hk. revert m. induction us as [|u us IH]; intros m; [reflexivity|].
  simpl fold_left. rewrite IH, last_user_cons.
  destruct (last_user k us); [reflexivity|].
  unfold set_user, Object_set.
  destruct (String.eqb_spec (user_key u) "__proto__") as [E|E]; cbn [own].
  - destruct (String.eqb_spec (user_key u) k); [congruence | reflexivity].
  - rewrite Map_get_set. destruct (String.eqb (user_key u) k); reflexivity.
Qed.

Lemma userMap_own_proto us m :
  Map_get "__proto__" (own m) = None ->
  Map_get "__proto__" (own (fold_left set_user us m)) = None.
Proof.
  revert m. induction us as [|u us IH]; intros m Hm; [exact Hm|].
  simpl fold_left. apply IH. unfold set_user, Object_set.
  destruct (String.eqb_spec (user_key u) "__proto__") as [E|E]; cbn [own]; [exact Hm|].
  rewrite Map_get_set. apply String.eqb_neq in E. now rewrite E.
Qed.

Lemma userMap_prototype us m :
  prototype (fold_left set_user us m)
  = match last_user "__proto__" us with
    | Some u => Some u
    | None => prototype m
    end.
Proof.
  revert m. induction us as [|u us IH]; intros m; [reflexivity|].
  simpl fold_left. rewrite IH, last_user_cons.
  destruct (last_user "__proto__" us); [reflexivity|].
  unfold set_user, Object_set.
  destruct (String.eqb (user_key u) "__proto__"); reflexivity.
Qed.

(** A user listed under [k] is what [userMap[k]] gives, also for
    [k = "__proto__"]. *)
Lemma userMap_hit k us u :
  last_user k us = Some u -> Object_get k (userMap_of us) = VUser u.
Proof.
  intros H. unfold Object_get, userMap_of. fold set_user.
  destruct (String.eqb_spec k "__proto__") as [->|Hk].
  - rewrite userMap_own_proto by reflexivity. now rewrite userMap_prototype, H.
  - now rewrite userMap_own, H.
Qed.

Lemma userMap_miss k us :
  last_user k us = None -> last_user "__proto__" us = None ->
  Object_get k (userMap_of us)
  = if String.eqb k "__proto__" then VBareObject else Object_prototype_get k.
Proof.
  intros H Hp. unfold Object_get, userMap_of. fold set_user.
  destruct (String.eqb_spec k "__proto__") as [->|Hk].
  - rewrite userMap_own_proto by reflexivity. now rewrite userMap_prototype, Hp.
  - now rewrite userMap_own, H, userMap_prototype, Hp.
Qed.

Lemma userMap_method k us :
  last_user k us = None -> In k Object_prototype_methods ->
  Object_get k (userMap_of us) = VFunction k.
Proof.
  intros H Hin. unfold Object_get, userMap_of. fold set_user.
  assert (Hk : k <> "__proto__")
    by (intros ->; simpl in Hin; intuition discriminate).
  rewrite userMap_own, H by exact Hk. cbn [own Map_get].
  apply String.eqb_neq in Hk. rewrite Hk.
  assert (Hm : Object_prototype_get k = VFunction k).
  { unfold Object_prototype_get.
    replace (existsb (String.eqb k) Object_prototype_methods) with true; [reflexivity|].
    symmetry. apply existsb_exists. exists k. split; [exact Hin | apply String.eqb_refl]. }
  destruct (prototype _) as [u|]; [|exact Hm].
  replace (user_get k u) with (@None Value); [exact Hm|].
  simpl in Hin. repeat (destruct Hin as [<-|Hin]; [reflexivity|]). destruct Hin.
Qed.

(** X12: [processTweets] changes nothing but the author.  The processed
    tweets are the tweets of the upstream, one for one and in the same
    order, with the same id, text, date, flag, author id and metrics, so the
    filter of the merge treats them alike. *)
Theorem processTweets_keeps_tweets o ts :
  Forall2 (fun t p => id p = id t /\ text p = text t /\ created_at p = created_at t
                      /\ isMockData p = isMockData t /\ author_id p = author_id t
                      /\ public_metrics p = public_metrics t
                      /\ is_real p = is_real t)
    ts (processTweets o ts).
Proof.
  unfold processTweets.
  destruct (includes o) as [[[us|]]|]; induction ts as [|t ts IH]; cbn [map];
    constructor; try exact IH; repeat split.
Qed.

(** X13: the author of a processed tweet.  When the upstream sends
    [includes.users], a tweet whose [author_id] lists a user gets the last
    such user, whatever author it carried.  When no user is listed under
    it, an [author_id] that names a method of [Object.prototype] leaves the
    tweet without author in the answer and in the file; and when no user is
    listed under [__proto__] either, the [author_id] [__proto__] gives the
    author [{}] and every other one the default author.  When the upstream
    sends no users, a tweet keeps an author that is truthy and gets the
    default author otherwise. *)
Theorem processTweets_author o ts :
  (forall us, includes o = Some {| users := Some us |} ->
     Forall2 (fun t p =>
                match last_user (author_id t) us with
                | Some u => author p = Some (AuthorUser u)
                | None =>
                    (In (author_id t) Object_prototype_methods -> author p = None)
                    /\ (last_user "__proto__" us = None ->
                        author p
                        = if String.eqb (author_id t) "__proto__" then Some AuthorEmpty
                          else if existsb (String.eqb (author_id t)) Object_prototype_methods
                               then None
                               else Some (AuthorUser DEFAULT_AUTHOR))
                end)
       ts (processTweets o ts))
  /\ (includes o = None \/ includes o = Some {| users := None |} ->
      Forall2 (fun t p =>
                 author p = if truthy_value (author_value (author t)) then author t
                            else Some (AuthorUser DEFAULT_AUTHOR))
        ts (processTweets o ts)).
Proof.
  unfold processTweets. split.
  - intros us ->. induction ts as [|t ts IH]; cbn [map]; constructor; [|exact IH].
    cbn [author with_author].
    destruct (last_user (author_id t) us) as [u|] eqn:E.
    + now rewrite (userMap_hit _ _ _ E).
    + split.
      * intros Hin. now rewrite (userMap_method _ _ E Hin).
      * intros Hp. rewrite (userMap_miss _ _ E Hp).
        destruct (String.eqb (author_id t) "__proto__"); [reflexivity|].
        unfold Object_prototype_get.
        destruct (existsb (String.eqb (author_id t)) Object_prototype_methods); reflexivity.
  - assert (Hkeep : forall a, render (or_default (author_value a))
                              = if truthy_value (author_value a) then a
                                else Some (AuthorUser DEFAULT_AUTHOR)).
    { intros [[u| |str|[|]]|]; unfold or_default; cbn [author_value truthy_value];
        try reflexivity.
      destruct (String.eqb str ""); reflexivity. }
    intros [-> | ->]; induction ts as [|t ts IH]; cbn [map]; constructor;
      try exact IH; cbn [author with_author]; apply Hkeep.
Qed.

Lemma processTweets_author_witness :
  map author (processTweets {| access_token := None; data := None;
                               includes := Some {| users := Some [user_u7] |} |}
                [tweet_by "u7"; tweet_by "u8"; tweet_by "constructor"; tweet_by "__proto__"])
  = [Some (AuthorUser user_u7); Some (AuthorUser DEFAULT_AUTHOR); None; Some AuthorEmpty]
  /\ Forall2 (fun t p =>
                match last_user (author_id t) [user_u7] with
                | Some u => author p = Some (AuthorUser u)
                | None =>
                    (In (author_id t) Object_prototype_methods -> author p = None)
                    /\ (last_user "__proto__" [user_u7] = None ->
                        author p
                        = if String.eqb (author_id t) "__proto__" then Some AuthorEmpty
                          else if existsb (String.eqb (author_id t)) Object_prototype_methods
                               then None
                               else Some (AuthorUser DEFAULT_AUTHOR))
                end)
       [tweet_by "u7"; tweet_by "constructor"]
       (processTweets {| access_token := None; data := None;
                         includes := Some {| users := Some [user_u7] |} |}
          [tweet_by "u7"; tweet_by "constructor"]).
Proof.
  split; [reflexivity|].
  exact (proj1 (processTweets_author
                  {| access_token := None; data := None;
                     includes := Some {| users := Some [user_u7] |} |}
                  [tweet_by "u7"; tweet_by "constructor"]) [user_u7] eq_refl).
Defined.

(** X14: the caller of a successful live fetch gets the processed tweets
    whether or not they could be saved.  With a token and an upstream
    success that carries posts, the route answers 200 with the processed
    posts and the upstream's [includes]; the store becomes the merge when
    the write is accepted, stays as it was when the write is rejected before
    the file is opened, and is empty when it is rejected after. *)
Theorem twitter_search_live req w response o posts :
  truthy (token_at w) = true ->
  network w (twitterUrl req) = Some response ->
  ok response = true ->
  json response = JsonObj o ->
  data o = Some posts ->
  posts <> [] ->
  exists w',
    twitter_search req w
    = (Return {| statusCode := 200;
                 payload := TweetsJson (processTweets o posts)
                              (match includes o with Some i => i | None => no_users end)
                              false |}, w')
    /\ stored w' = match write_fault w with
                   | None => merged (stored w) (processTweets o posts)
                   | Some (RejectedAtOpen _) => stored w
                   | Some (RejectedAfterOpen _) => []
                   end.
Proof.
  intros Htrue Hnet Hok Hjson Hdata Hposts.
  destruct (getTwitterBearerToken_run w) as [tok [w1 [Htok Henv]]].
  assert (Htoken : token_at w = tok) by (unfold token_at; now rewrite Htok).
  destruct Henv as [Hf1 [Hwf [_ [Hn1 _]]]].
  rewrite Htoken in Htrue.
  unfold twitter_search.
  cbv beta iota delta [bind try_catch]. rewrite Htok, Htrue.
  cbv beta iota delta [negb console_log fetch].
  cbn [network with_console]. rewrite Hn1, Hnet, Hok.
  cbv beta iota delta [negb]. unfold response_json. rewrite Hjson.
  cbv beta iota delta [ret prop_data]. rewrite Hdata.
  assert (He : nonempty (or_empty (Some posts)) = true)
    by (destruct posts; [congruence | reflexivity]).
  rewrite He. cbv iota. rewrite saveStoredTweets_run.
  eexists. split.
  - unfold res_json, ret, includes_or_default, or_empty.
    destruct o as [at_ d [i|]]; reflexivity.
  - rewrite after_save_stored. cbn [write_fault with_console]. rewrite Hwf.
    repeat change (stored (with_console ?c ?w0)) with (stored w0).
    rewrite (stored_files w w1 Hf1). destruct (write_fault w) as [[c|c]|]; reflexivity.
Qed.

Lemma twitter_search_live_witness :
  exists w',
    twitter_search plain_request (answering_world (Some [tweet_c]))
    = (Return {| statusCode := 200;
                 payload := TweetsJson [with_author (Some (AuthorUser DEFAULT_AUTHOR)) tweet_c]
                              no_users false |},
       w')
    /\ stored w' = [with_author (Some (AuthorUser DEFAULT_AUTHOR)) tweet_c; tweet_a].
Proof.
  apply (twitter_search_live plain_request (answering_world (Some [tweet_c]))
           (json_answer (JsonObj {| access_token := None; data := Some [tweet_c];
                                    includes := None |}))
           {| access_token := None; data := Some [tweet_c]; includes := None |}
           [tweet_c]).
  - reflexivity.
  - reflexivity.
  - reflexivity.
  - reflexivity.
  - reflexivity.
  - discriminate.
Defined.


Lemma sample_ten_frame w :
  exists sample ws,
    getRandomStoredTweets 10 w = (Return sample, ws)
    /\ files ws = files w
    /\ fs_calls ws = fs_calls w ++ [ReadFile TWEETS_DB_FILE]
    /\ (forall t, In t sample -> In t (stored w))
    /\ (nonempty sample = true -> sample <> [])
    /\ (nonempty sample = nonempty (stored w))
    /\ (List.length sample <= 10)%nat.
Proof.
  destruct (getRandomStoredTweets_run 10 w) as [shuffled [k [Hperm Hrun]]].
  eexists _, _. split; [exact Hrun|].
  split; [reflexivity|]. split; [reflexivity|].
  assert (Hmin : 0 <= Z.min 10 (Z.of_nat (List.length (stored w)))) by lia.
  rewrite Array_slice_firstn by exact Hmin.
  split; [|split; [|split]]; [| | |rewrite length_firstn; lia].
  - intros t Ht. apply In_firstn in Ht.
    exact (Permutation_in _ (Permutation_sym Hperm) Ht).
  - intros H E. rewrite E in H. discriminate H.
  - unfold nonempty. rewrite length_firstn, <- (Permutation_length Hperm).
    destruct (stored w); [reflexivity|]. simpl List.length.
    apply Nat.ltb_lt. lia.
Qed.

(** Runs the sampler where the goal calls it, from a world with the files
    and the [fs] calls of [w]. *)
Ltac sample_frame_step w Hf1 Hc1 :=
  match goal with
  | |- context [getRandomStoredTweets 10 ?w0] =>
      let sample := fresh "sample" in
      let ws := fresh "ws" in
      let Hrun := fresh "Hrun" in
      let Hfiles := fresh "Hfiles" in
      let Hcalls := fresh "Hcalls" in
      let Hin := fresh "Hin" in
      let Hne := fresh "Hne" in
      let Hsame := fresh "Hsame" in
      let Hten := fresh "Hten" in
      let Hs := fresh "Hs" in
      let En := fresh "En" in
      destruct (sample_ten_frame w0)
        as [sample [ws [Hrun [Hfiles [Hcalls [Hin [Hne [Hsame Hten]]]]]]]];
      rewrite Hrun; clear Hrun;
      assert (Hs : stored w0 = stored w) by (apply stored_files; exact Hf1);
      rewrite Hs in Hin, Hsame; clear Hs;
      cbn [files fs_calls with_console] in Hfiles, Hcalls;
      rewrite Hf1 in Hfiles; rewrite Hc1 in Hcalls;
      cbv beta iota;
      destruct (nonempty sample) eqn:En; cbv beta iota
  end.

(** X15: a fallback answer never writes.  When no token is to be had or the
    live fetch fails, the route leaves every file as it was and its only
    call to [fs] is the one read of the backing file. *)
Theorem twitter_search_fallback_reads_only req w :
  truthy (token_at w) = false \/ live_failed req w = true ->
  let w' := snd (twitter_search req w) in
  files w' = files w
  /\ fs_calls w' = fs_calls w ++ [ReadFile TWEETS_DB_FILE].
Proof.
  destruct (getTwitterBearerToken_run w) as [tok [w1 [Htok Henv]]].
  assert (Htoken : token_at w = tok) by (unfold token_at; now rewrite Htok).
  destruct Henv as [Hf1 [_ [Hc1 [Hn1 _]]]].
  unfold twitter_search, live_failed. rewrite Htoken.
  cbv beta iota zeta delta [bind try_catch]. rewrite Htok.
  destruct (truthy tok) eqn:Et; cbv beta iota delta [negb].
  - cbv beta iota delta [console_log fetch].
    cbn [network with_console]. rewrite Hn1.
    destruct (network w (twitterUrl req)) as [resp|].
    + destruct (ok resp); cbv beta iota delta [orb negb].
      * unfold response_json.
        destruct (json resp) as [| |o|raw];
          cbv beta iota delta [throw ret prop_data console_error];
          try (intros [H|H]; discriminate H); intros _.
        -- sample_frame_step w Hf1 Hc1; [split; assumption|].
           rewrite getMockTweets_run. split; assumption.
        -- sample_frame_step w Hf1 Hc1; [split; assumption|].
           rewrite getMockTweets_run. split; assumption.
      * intros _. unfold response_text. destruct (body_text resp) as [txt|];
          cbv beta iota delta [throw ret console_error].
        -- sample_frame_step w Hf1 Hc1; [split; assumption|].
           rewrite getMockTweets_run. split; assumption.
        -- sample_frame_step w Hf1 Hc1; [split; assumption|].
           rewrite getMockTweets_run. split; assumption.
    + intros _. cbv beta iota delta [console_error].
      sample_frame_step w Hf1 Hc1; [split; assumption|].
      rewrite getMockTweets_run. split; assumption.
  - intros _. cbv beta iota delta [console_log].
    sample_frame_step w Hf1 Hc1; split; assumption.
Qed.

Ltac flag_answer :=
  eexists _, _; split; [reflexivity|];
  intros l inc Hpay; cbn [payload] in Hpay;
  first [discriminate Hpay
        | injection Hpay as <- <-;
          split; [|assumption];
          split; [reflexivity|];
          eexists; split; [reflexivity|]; split; [auto | assumption]].

Lemma twitter_search_fallback_reads_only_witness :
  (truthy (token_at (world_with [tweet_a])) = false
   \/ live_failed plain_request (world_with [tweet_a]) = true)
  /\ files (snd (twitter_search plain_request (world_with [tweet_a])))
     = files (world_with [tweet_a])
  /\ fs_calls (snd (twitter_search plain_request (world_with [tweet_a])))
     = fs_calls (world_with [tweet_a]) ++ [ReadFile TWEETS_DB_FILE].
Proof.
  assert (H : truthy (token_at (world_with [tweet_a])) = false
              \/ live_failed plain_request (world_with [tweet_a]) = true)
    by (left; reflexivity).
  split; [exact H|].
  exact (twitter_search_fallback_reads_only plain_request (world_with [tweet_a]) H).
Defined.

(** X16: [isStoredData] tells the truth.  Whenever the route answers with
    tweets marked [isStoredData], they are a non-empty sample of the store,
    at most ten of them, and the status is 200; live and placeholder tweets
    never carry the mark. *)
Theorem stored_flag_sound req w :
  exists r w',
    twitter_search req w = (Return r, w')
    /\ forall l inc, payload r = TweetsJson l inc true ->
         from_cache w r /\ (List.length l <= 10)%nat.
Proof.
  destruct (getTwitterBearerToken_run w) as [tok [w1 [Htok Henv]]].
  destruct Henv as [Hf1 [_ [Hc1 [Hn1 _]]]].
  unfold twitter_search.
  cbv beta iota delta [bind try_catch]. rewrite Htok.
  destruct (truthy tok) eqn:Et; cbv beta iota delta [negb].
  - cbv beta iota delta [console_log fetch].
    cbn [network with_console]. rewrite Hn1.
    destruct (network w (twitterUrl req)) as [resp|].
    + destruct (ok resp); cbv beta iota delta [orb negb].
      * unfold response_json.
        destruct (json resp) as [| |o|raw];
          cbv beta iota delta [throw ret prop_data console_error].
        -- sample_frame_step w Hf1 Hc1; [flag_answer|].
           rewrite getMockTweets_run. flag_answer.
        -- sample_frame_step w Hf1 Hc1; [flag_answer|].
           rewrite getMockTweets_run. flag_answer.
        -- destruct (nonempty (or_empty (data o))).
           ++ rewrite saveStoredTweets_run. flag_answer.
           ++ flag_answer.
        -- change (nonempty (@or_empty Tweet None)) with false. cbv iota. flag_answer.
      * unfold response_text. destruct (body_text resp) as [txt|];
          cbv beta iota delta [throw ret console_error].
        -- sample_frame_step w Hf1 Hc1; [flag_answer|].
           rewrite getMockTweets_run. flag_answer.
        -- sample_frame_step w Hf1 Hc1; [flag_answer|].
           rewrite getMockTweets_run. flag_answer.
    + cbv beta iota delta [console_error].
      sample_frame_step w Hf1 Hc1; [flag_answer|].
      rewrite getMockTweets_run. flag_answer.
  - cbv beta iota delta [console_log].
    sample_frame_step w Hf1 Hc1; [flag_answer|].
    unfold res_status_json. flag_answer.
Qed.

Ltac status_answer :=
  eexists; split; [reflexivity|]; cbn [statusCode];
  repeat match goal with H : _ = nonempty (stored _) |- _ => rewrite <- H end;
  reflexivity.

Lemma stored_flag_sound_witness :
  from_cache (world_with [tweet_a])
    {| statusCode := 200; payload := TweetsJson [tweet_a] no_users true |}.
Proof.
  destruct (stored_flag_sound plain_request (world_with [tweet_a])) as [r [w' [Hrun H]]].
  assert (Hc : fst (twitter_search plain_request (world_with [tweet_a]))
               = Return {| statusCode := 200;
                           payload := TweetsJson [tweet_a] no_users true |})
    by (vm_compute; reflexivity).
  rewrite Hrun in Hc. cbn [fst] in Hc. injection Hc as Hr. subst r.
  exact (proj1 (H [tweet_a] no_users eq_refl)).
Defined.

Lemma status_with_store req w :
  exists r,
    fst (twitter_search req w) = Return r
    /\ statusCode r = if truthy (token_at w) || nonempty (stored w) then 200 else 500.
Proof.
  destruct (getTwitterBearerToken_run w) as [tok [w1 [Htok Henv]]].
  assert (Htoken : token_at w = tok) by (unfold token_at; now rewrite Htok).
  destruct Henv as [Hf1 [_ [Hc1 [Hn1 _]]]].
  unfold twitter_search. rewrite Htoken.
  cbv beta iota delta [bind try_catch]. rewrite Htok.
  destruct (truthy tok) eqn:Et; cbv beta iota delta [negb orb].
  - cbv beta iota delta [console_log fetch].
    cbn [network with_console]. rewrite Hn1.
    destruct (network w (twitterUrl req)) as [resp|].
    + destruct (ok resp); cbv beta iota delta [orb negb].
      * unfold response_json.
        destruct (json resp) as [| |o|raw];
          cbv beta iota delta [throw ret prop_data console_error].
        -- sample_frame_step w Hf1 Hc1; [status_answer|].
           rewrite getMockTweets_run. status_answer.
        -- sample_frame_step w Hf1 Hc1; [status_answer|].
           rewrite getMockTweets_run. status_answer.
        -- destruct (nonempty (or_empty (data o))).
           ++ rewrite saveStoredTweets_run. status_answer.
           ++ status_answer.
        -- change (nonempty (@or_empty Tweet None)) with false. cbv iota. status_answer.
      * unfold response_text. destruct (body_text resp) as [txt|];
          cbv beta iota delta [throw ret console_error].
        -- sample_frame_step w Hf1 Hc1; [status_answer|].
           rewrite getMockTweets_run. status_answer.
        -- sample_frame_step w Hf1 Hc1; [status_answer|].
           rewrite getMockTweets_run. status_answer.
    + cbv beta iota delta [console_error].
      sample_frame_step w Hf1 Hc1; [status_answer|].
      rewrite getMockTweets_run. status_answer.
  - cbv beta iota delta [console_log].
    sample_frame_step w Hf1 Hc1; [status_answer|].
    unfold res_status_json. status_answer.
Qed.

Lemma status_without_store req w :
  exists r w',
    Legacy.twitter_search req w = (Return r, w')
    /\ statusCode r = (if truthy (token_at w) then 200 else 500)
    /\ files w' = files w /\ fs_calls w' = fs_calls w.
Proof.
  destruct (getTwitterBearerToken_run w) as [tok [w1 [Htok Henv]]].
  assert (Htoken : token_at w = tok) by (unfold token_at; now rewrite Htok).
  destruct Henv as [Hf1 [_ [Hc1 [Hn1 _]]]].
  unfold Legacy.twitter_search. rewrite Htoken.
  cbv beta iota delta [bind try_catch]. rewrite Htok.
  destruct (truthy tok) eqn:Et; cbv beta iota delta [negb].
  - cbv beta iota delta [console_log fetch].
    cbn [network with_console]. rewrite Hn1.
    destruct (network w (twitterUrl req)) as [resp|].
    + destruct (ok resp); cbv beta iota delta [negb].
      * unfold response_json.
        destruct (json resp) as [| |o|raw];
          cbv beta iota delta [throw ret console_error];
          eexists _, _; (split; [reflexivity|]); repeat split; assumption.
      * unfold response_text. destruct (body_text resp) as [txt|];
          cbv beta iota delta [throw ret console_error].
        -- destruct (status resp =? 429); [|destruct (status resp =? 403)];
             eexists _, _; (split; [reflexivity|]); repeat split; assumption.
        -- eexists _, _. split; [reflexivity|]. repeat split; assumption.
    + cbv beta iota delta [console_error].
      eexists _, _. split; [reflexivity|]. repeat split; assumption.
  - eexists _, _. split; [reflexivity|]. repeat split; assumption.
Qed.

(** X17: the status of the route, with and without the store.  The
    file-backed route answers 500 exactly when there is neither a token nor a
    stored tweet, the variant without the store exactly when there is no
    token, and 200 otherwise; the two agree whenever a token is to be had or
    the store is empty.  The variant without the store makes no call to
    [fs]. *)
Theorem status_of_both_variants req w :
  exists r r' w',
    fst (twitter_search req w) = Return r
    /\ Legacy.twitter_search req w = (Return r', w')
    /\ statusCode r = (if truthy (token_at w) || nonempty (stored w) then 200 else 500)
    /\ statusCode r' = (if truthy (token_at w) then 200 else 500)
    /\ fs_calls w' = fs_calls w
    /\ (truthy (token_at w) = true \/ stored w = [] -> statusCode r = statusCode r').
Proof.
  destruct (status_with_store req w) as [r [Hrun Hs]].
  destruct (status_without_store req w) as [r' [w' [Hrun' [Hs' [_ Hcalls]]]]].
  exists r, r', w'. repeat split; try assumption.
  rewrite Hs, Hs'. intros [-> | ->]; [reflexivity|].
  destruct (truthy (token_at w)); reflexivity.
Qed.

Lemma status_of_both_variants_witness :
  (truthy (token_at quiet_world) = true \/ stored quiet_world = [])
  /\ exists r r',
       fst (twitter_search plain_request quiet_world) = Return r
       /\ fst (Legacy.twitter_search plain_request quiet_world) = Return r'
       /\ statusCode r = statusCode r'.
Proof.
  assert (H : truthy (token_at quiet_world) = true \/ stored quiet_world = [])
    by (right; reflexivity).
  split; [exact H|].
  destruct (status_of_both_variants plain_request quiet_world)
    as [r [r' [w' [Hrun [Hrun' [_ [_ [_ Hsame]]]]]]]].
  exists r, r'. split; [exact Hrun|]. split; [now rewrite Hrun'|]. exact (Hsame H).
Defined.

(* ================================================================= *)
(** ** Properties of the other proxy routes *)

Lemma string_app_assoc (a b c : string) : ((a ++ b) ++ c = a ++ (b ++ c))%string.
Proof. induction a as [|x a IH]; simpl; [reflexivity | now rewrite IH]. Qed.

Lemma occurs_app c a b : occurs c (a ++ b)%string = occurs c a || occurs c b.
Proof.
  induction a as [|x a IH]; simpl; [reflexivity|].
  rewrite IH. now rewrite orb_assoc.
Qed.

Lemma String_split_none c s : occurs c s = false -> String_split c s = [s].
Proof.
  induction s as [|a s IH]; simpl; [reflexivity|].
  intros H. apply orb_false_iff in H. destruct H as [Ha Hs].
  rewrite Ha, (IH Hs). reflexivity.
Qed.

Lemma String_split_at c a b :
  occurs c a = false -> String_split c (a ++ String c b)%string = a :: String_split c b.
Proof.
  induction a as [|x a IH]; simpl.
  - intros _. now rewrite Ascii.eqb_refl.
  - intros H. apply orb_false_iff in H. destruct H as [Hx Ha].
    rewrite Hx, (IH Ha). reflexivity.
Qed.

Lemma prefix_empty s : String.prefix "" s = true.
Proof. now destruct s. Qed.

Lemma String_replace_limitless p :
  String_replace "/api/limitless/" "" ("/api/limitless/" ++ p)%string = p.
Proof. simpl. now rewrite prefix_empty. Qed.

(** X18: the URL the Limitless proxy fetches.  For a request path
    [/api/limitless/p] the upstream URL is [https://api.limitless.exchange/p]
    followed by [?] and the query string when there is one; of a URL with a
    second [?] only the part between the first and the second is kept. *)
Theorem limitlessUrl_built p q :
  occurs "?"%char p = false ->
  occurs "?"%char q = false ->
  let url := ("https://api.limitless.exchange/" ++ p
              ++ (if String.eqb q "" then "" else "?" ++ q))%string in
  limitlessUrl {| req_path := "/api/limitless/" ++ p;
                  originalUrl := "/api/limitless/" ++ p ++ "?" ++ q |} = url
  /\ limitlessUrl {| req_path := "/api/limitless/" ++ p;
                     originalUrl := "/api/limitless/" ++ p |}
     = ("https://api.limitless.exchange/" ++ p)%string
  /\ forall rest,
       limitlessUrl {| req_path := "/api/limitless/" ++ p;
                       originalUrl := "/api/limitless/" ++ p ++ "?" ++ q ++ "?" ++ rest |}
       = url.
Proof.
  intros Hp Hq url.
  assert (Hbase : occurs "?"%char ("/api/limitless/" ++ p)%string = false)
    by (rewrite occurs_app, Hp; reflexivity).
  unfold limitlessUrl. cbn [req_path originalUrl].
  rewrite String_replace_limitless.
  split; [|split].
  - replace ("/api/limitless/" ++ p ++ "?" ++ q)%string
      with (("/api/limitless/" ++ p) ++ String "?" q)%string
      by (rewrite string_app_assoc; reflexivity).
    rewrite String_split_at, String_split_none by assumption.
    cbn [nth truthy]. unfold url. destruct (String.eqb q ""); reflexivity.
  - rewrite String_split_none by assumption. cbn [nth truthy].
    change (negb (String.eqb "" "")) with false. cbv iota.
    f_equal. clear. induction p as [|a p IH]; simpl; [reflexivity | now rewrite IH].
  - intros rest.
    replace ("/api/limitless/" ++ p ++ "?" ++ q ++ "?" ++ rest)%string
      with (("/api/limitless/" ++ p) ++ String "?" (q ++ String "?" rest))%string
      by (rewrite string_app_assoc; reflexivity).
    rewrite !String_split_at by assumption.
    cbn [nth truthy]. unfold url. destruct (String.eqb q ""); reflexivity.
Qed.

Lemma limitlessUrl_built_witness :
  limitlessUrl {| req_path := "/api/limitless/markets/active";
                  originalUrl := "/api/limitless/markets/active?page=2" |}
  = "https://api.limitless.exchange/markets/active?page=2".
Proof.
  exact (proj1 (limitlessUrl_built "markets/active" "page=2" eq_refl eq_refl)).
Defined.

(** X19: the Limitless proxy forwards the body and hides the status.  It
    answers 200 with the JSON body of the upstream whatever the upstream's
    status was, and 500 with [Proxy request failed] only when the fetch
    rejects or the body is not JSON; it never throws and makes no call to
    [fs]. *)
Theorem limitless_proxy_answer req w :
  exists r w',
    limitless_proxy req w = (Return r, w')
    /\ files w' = files w /\ fs_calls w' = fs_calls w
    /\ match network w (limitlessUrl req) with
       | None => r = {| proxyStatus := 500;
                        proxyBody := ProxyError "Proxy request failed" FetchError |}
       | Some response =>
           match json response with
           | NotJson => r = {| proxyStatus := 500;
                               proxyBody := ProxyError "Proxy request failed" SyntaxError |}
           | b => r = {| proxyStatus := 200; proxyBody := Forwarded b |}
           end
       end.
Proof.
  unfold limitless_proxy.
  cbv beta iota delta [bind try_catch console_log fetch].
  cbn [network with_console].
  destruct (network w (limitlessUrl req)) as [resp|].
  - unfold response_json.
    destruct (json resp) as [| |o|raw];
      eexists _, _; (split; [reflexivity|]); repeat split.
  - eexists _, _. split; [reflexivity|]. repeat split.
Qed.

(** X20: the Binance proxies never answer with an error.  Both answer 200:
    with the JSON body of the upstream when there is one, and otherwise the
    klines route with an empty array and the ticker route with the fixed
    price of [BTCUSDT], whatever symbol was asked for. *)
Theorem binance_never_fails q w :
  exists r1 r2 w1 w2,
    binance_klines q w = (Return r1, w1)
    /\ binance_ticker q w = (Return r2, w2)
    /\ proxyStatus r1 = 200 /\ proxyStatus r2 = 200
    /\ (match network w (klinesUrl q) with
        | Some response =>
            match json response with
            | NotJson => proxyBody r1 = EmptyArray
            | b => proxyBody r1 = Forwarded b
            end
        | None => proxyBody r1 = EmptyArray
        end)
    /\ (match network w (tickerUrl q) with
        | Some response =>
            match json response with
            | NotJson => proxyBody r2 = Price "BTCUSDT" "107000.00"
            | b => proxyBody r2 = Forwarded b
            end
        | None => proxyBody r2 = Price "BTCUSDT" "107000.00"
        end).
Proof.
  unfold binance_klines, binance_ticker.
  cbv beta iota delta [bind try_catch console_log fetch].
  cbn [network with_console].
  destruct (network w (klinesUrl q)) as [r1|], (network w (tickerUrl q)) as [r2|];
    unfold response_json;
    try destruct (json r1) as [| |o1|raw1]; try destruct (json r2) as [| |o2|raw2];
    eexists _, _, _, _; (split; [reflexivity|]); (split; [reflexivity|]); repeat split.
Qed.
